(** * A shallow embedding of tomlfuse's data engine.

    The TOML text is modelled as an ASCII [string] (one [ascii] per byte);
    Rust's [str::trim] is modelled on ASCII whitespace.  The engine's
    external collaborators (the glob matcher, the TOML decoder, the file
    system, the [Debug]/[Display] formatters) are section variables. *)

From Stdlib Require Import String Ascii List Bool Arith Lia ZArith.
Import ListNotations.
Open Scope string_scope.
Open Scope list_scope.
Set Warnings "-register-all".

(** ** String primitives of [core::str] used by the source *)
Module Str.

Definition is_ws (c : ascii) : bool :=
  let n := nat_of_ascii c in (Nat.leb 9 n && Nat.leb n 13) || Nat.eqb n 32.

Fixpoint trim_start (s : string) : string :=
  match s with
  | EmptyString => EmptyString
  | String c s' => if is_ws c then trim_start s' else s
  end.

Definition rev_str (s : string) : string :=
  string_of_list_ascii (List.rev (list_ascii_of_string s)).

Definition trim_end (s : string) : string := rev_str (trim_start (rev_str s)).

(** [str::trim] *)
Definition trim (s : string) : string := trim_end (trim_start s).

(** [str::starts_with(char)] *)
Definition starts_with (c : ascii) (s : string) : bool :=
  match s with
  | String c' _ => Ascii.eqb c c'
  | EmptyString => false
  end.

(** [str::contains(&str)] *)
Fixpoint contains (pat s : string) : bool :=
  String.prefix pat s ||
  match s with
  | EmptyString => false
  | String _ s' => contains pat s'
  end.

(** [str::find(char)]: the byte index of the first occurrence. *)
Fixpoint find (c : ascii) (s : string) : option nat :=
  match s with
  | EmptyString => None
  | String c' s' =>
      if Ascii.eqb c c' then Some 0
      else match find c s' with Some n => Some (S n) | None => None end
  end.

(** [&s[n..]] and [&s[..n]] *)
Fixpoint drop (n : nat) (s : string) : string :=
  match n, s with
  | 0, _ => s
  | S n', String _ s' => drop n' s'
  | S _, EmptyString => EmptyString
  end.

Fixpoint take (n : nat) (s : string) : string :=
  match n, s with
  | 0, _ => EmptyString
  | S n', String c s' => String c (take n' s')
  | S _, EmptyString => EmptyString
  end.

(** [&s[i..j]] *)
Definition slice (i j : nat) (s : string) : string := take (j - i) (drop i s).

(** [str::split(char)] *)
Fixpoint split (c : ascii) (s : string) : list string :=
  match s with
  | EmptyString => [EmptyString]
  | String c' s' =>
      if Ascii.eqb c c' then EmptyString :: split c s'
      else match split c s' with
           | w :: ws => String c' w :: ws
           | [] => [String c' EmptyString]
           end
  end.

(** [[String]::join(sep)] *)
Fixpoint join (sep : string) (l : list string) : string :=
  match l with
  | [] => EmptyString
  | [x] => x
  | x :: xs => x ++ sep ++ join sep xs
  end.

(** [str::replace(char, char-as-&str)] *)
Fixpoint replace (a b : ascii) (s : string) : string :=
  match s with
  | EmptyString => EmptyString
  | String c s' => String (if Ascii.eqb c a then b else c) (replace a b s')
  end.

(** [str::trim_start_matches(char)] *)
Fixpoint trim_start_matches (a : ascii) (s : string) : string :=
  match s with
  | EmptyString => EmptyString
  | String c s' => if Ascii.eqb c a then trim_start_matches a s' else s
  end.

(** [str::trim_end_matches(char)] *)
Definition trim_end_matches (a : ascii) (s : string) : string :=
  rev_str (trim_start_matches a (rev_str s)).

(** [str::ends_with(char)] *)
Definition ends_with (c : ascii) (s : string) : bool := starts_with c (rev_str s).

(** [n] copies of one character. *)
Fixpoint repeat_char (c : ascii) (n : nat) : string :=
  match n with
  | 0 => EmptyString
  | S n' => String c (repeat_char c n')
  end.

Definition nl : ascii := ascii_of_nat 10.
Definition cr : ascii := ascii_of_nat 13.

Definition strip_cr (s : string) : string :=
  match String.get (String.length s - 1) s with
  | Some c => if Ascii.eqb c cr then take (String.length s - 1) s else s
  | None => s
  end.

(** [str::lines]: split at [\n]; a piece followed by [\n] loses a trailing
    [\r]; a final empty piece (text ending in [\n], or empty text) is not
    a line. *)
Fixpoint lines_of (ps : list string) : list string :=
  match ps with
  | [] => []
  | [p] => if String.eqb p EmptyString then [] else [p]
  | p :: ps' => strip_cr p :: lines_of ps'
  end.

Definition lines (s : string) : list string := lines_of (split nl s).

End Str.

(** ** Ordered association list standing for a [HashMap<String, _>] *)
Module Map.

Definition t (V : Type) := list (string * V).

Definition insert {V} (k : string) (v : V) (m : t V) : t V :=
  (k, v) :: List.filter (fun p => negb (String.eqb (fst p) k)) m.

Fixpoint get {V} (k : string) (m : t V) : option V :=
  match m with
  | [] => None
  | (k', v) :: m' => if String.eqb k' k then Some v else get k m'
  end.

End Map.

(** ** [comments.rs]: the comment harvester *)
Module Comments.

(** [enum StringState] *)
Inductive StringState := SNone | MultiSingleQuote | MultiDoubleQuote.

Definition StringState_eqb (a b : StringState) : bool :=
  match a, b with
  | SNone, SNone | MultiSingleQuote, MultiSingleQuote
  | MultiDoubleQuote, MultiDoubleQuote => true
  | _, _ => false
  end.

Definition dquote : ascii := ascii_of_nat 34.
Definition dq3 : string := String dquote (String dquote (String dquote EmptyString)).
Definition dq6 : string := dq3 ++ dq3.
Definition sq3 : string := "'''".
Definition sq6 : string := "''''''".

(** The loop state of [extract_comments]. *)
Record state := mkState {
  comments : Map.t string;
  string_state : StringState;
  current_comments : list string;
  current_path : list string
}.

Definition init : state := mkState [] SNone [] [].

Definition set_comments (st : state) (c : Map.t string) : state :=
  mkState c (string_state st) (current_comments st) (current_path st).
Definition set_string_state (st : state) (s : StringState) : state :=
  mkState (comments st) s (current_comments st) (current_path st).
Definition set_current_comments (st : state) (cs : list string) : state :=
  mkState (comments st) (string_state st) cs (current_path st).
Definition set_current_path (st : state) (p : list string) : state :=
  mkState (comments st) (string_state st) (current_comments st) p.

(** [extract_inline_comment] *)
Definition extract_inline_comment (line : string) (after_pos : nat) : option string :=
  match Str.find "#" line with
  | Some comment_pos =>
      if Nat.ltb after_pos comment_pos then
        let comment := Str.trim (Str.drop (comment_pos + 1) line) in
        if negb (String.eqb comment "") then Some comment else None
      else None
  | None => None
  end.

Definition push_opt (l : list string) (o : option string) : list string :=
  match o with Some x => l ++ [x] | None => l end.

(** [if !all.is_empty() { comments.insert(k, all.join("\n")) }] *)
Definition insert_nonempty (k : string) (all : list string) (m : Map.t string)
  : Map.t string :=
  match all with
  | [] => m
  | _ => Map.insert k (Str.join (String Str.nl EmptyString) all) m
  end.

(** Multi-line string detection of a line outside a string. *)
Definition detect_start (trimmed : string) : StringState :=
  if Str.contains dq3 trimmed && negb (Str.contains dq6 trimmed) then MultiDoubleQuote
  else if Str.contains sq3 trimmed && negb (Str.contains sq6 trimmed) then MultiSingleQuote
  else SNone.

(** Lines 131-173: the body after the header case, on a line that is not
    blank and not inside a multi-line string. *)
Definition step_plain (st : state) (trimmed : string) : state :=
  if Str.starts_with "#" trimmed then
    let comment_text := Str.trim (Str.drop 1 trimmed) in
    set_current_comments st
      (current_comments st ++ [if String.eqb comment_text "" then "" else comment_text])
  else
    match Str.find "=" trimmed with
    | Some pos =>
        if negb (String.eqb trimmed "") then
          let key := Str.trim (Str.take pos trimmed) in
          let full_path := current_path st ++ List.map Str.trim (Str.split "." key) in
          let path_str := Str.join "." full_path in
          let key_comments :=
            push_opt (current_comments st) (extract_inline_comment trimmed pos) in
          set_current_comments
            (set_comments st (insert_nonempty path_str key_comments (comments st))) []
        else st
    | None =>
        if negb (Str.starts_with "#" trimmed) then set_current_comments st [] else st
    end.

(** One iteration of the [for line in lines] loop of [extract_comments]. *)
Definition step (st : state) (line : string) : state :=
  let trimmed := Str.trim line in
  if String.eqb trimmed "" then set_current_comments st []
  else
  match string_state st with
  | MultiSingleQuote =>
      if Str.contains sq3 trimmed then set_string_state st SNone else st
  | MultiDoubleQuote =>
      if Str.contains dq3 trimmed then set_string_state st SNone else st
  | SNone =>
      match detect_start trimmed with
      | SNone =>
          if String.eqb trimmed "" then set_current_comments st []
          else
          match (if Str.starts_with "[" trimmed then Str.find "]" trimmed else None) with
          | Some section_end =>
              let section_path := Str.slice 1 section_end trimmed in
              let all_comments :=
                push_opt (current_comments st)
                  (extract_inline_comment trimmed section_end) in
              mkState (insert_nonempty section_path all_comments (comments st))
                      (string_state st) [] (Str.split "." section_path)
          | None => step_plain st trimmed
          end
      | s => set_string_state st s
      end
  end.

Definition run (st : state) (ls : list string) : state := List.fold_left step ls st.

(** [extract_comments] *)
Definition extract_comments (content : string) : Map.t string :=
  if String.eqb content "" then []
  else comments (run init (Str.lines content)).

End Comments.

(** ** [utils.rs]: identifier normalization *)
Module Utils.

(** [field::ROOT] *)
Definition ROOT : string := EmptyString.

(** [kebab_to_snake] *)
Definition kebab_to_snake (input : string) : string := Str.replace "-" "_" input.

(** [snake_to_kebab] *)
Definition snake_to_kebab (input : string) : string := Str.replace "_" "-" input.

(** [to_valid_ident] *)
Definition to_valid_ident (input : string) : string :=
  let i := Str.trim_end_matches Comments.dquote
             (Str.trim_start_matches Comments.dquote input) in
  if String.eqb i EmptyString then ROOT else kebab_to_snake i.

(** The rules of section 4.1 of the spec, read literally: strip one
    surrounding pair of double quotes when the first and the last
    character are both a double quote. *)
Definition to_valid_ident_spec (input : string) : string :=
  let n := String.length input in
  let i :=
    match String.get 0 input, String.get (n - 1) input with
    | Some a, Some b =>
        if Ascii.eqb a Comments.dquote && Ascii.eqb b Comments.dquote
        then Str.slice 1 (n - 1) input else input
    | _, _ => input
    end in
  if String.eqb i EmptyString then ROOT else kebab_to_snake i.

End Utils.

(** ** The TOML value tree ([toml::Value]) *)

(** A float is kept as its IEEE-754 bit pattern, a datetime as its
    [Display] rendering; a table lists its entries in iteration order. *)
Inductive Value :=
| VString (s : string)
| VInteger (i : Z)
| VFloat (bits : Z)
| VBoolean (b : bool)
| VDatetime (dt : string)
| VArray (arr : list Value)
| VTable (t : list (string * Value)).

(** [std::mem::discriminant] *)
Definition discriminant (v : Value) : nat :=
  match v with
  | VString _ => 0 | VInteger _ => 1 | VFloat _ => 2 | VBoolean _ => 3
  | VDatetime _ => 4 | VArray _ => 5 | VTable _ => 6
  end.

(** Token streams produced by [convert_value_to_tokens]. *)
Inductive Ty :=
| TyStaticStr                (* &'static str *)
| TyI64 | TyF64 | TyBool
| TyStaticSlice (elem : Ty). (* &'static [elem] *)

Inductive Lit :=
| LStr (s : string)
| LInt (i : Z)
| LFloat (bits : Z)
| LBool (b : bool)
| LSlice (elems : list Lit).  (* &[e1, e2, ...] *)

Section Convert.

(** [format!("{:?}", arr)] and [format!("{}", value)] *)
Variable debug_array : list Value -> string.
Variable display_value : Value -> string.

(** [utils::convert_value_to_tokens] *)
Fixpoint convert_value_to_tokens (value : Value) : Ty * Lit :=
  match value with
  | VString s => (TyStaticStr, LStr s)
  | VInteger i => (TyI64, LInt i)
  | VFloat f => (TyF64, LFloat f)
  | VBoolean b => (TyBool, LBool b)
  | VDatetime dt => (TyStaticStr, LStr dt)
  | VArray arr =>
      match arr with
      | [] => (TyStaticSlice TyStaticStr, LSlice [])
      | a0 :: _ =>
          let elem_ty := fst (convert_value_to_tokens a0) in
          let same_type :=
            List.forallb (fun v => Nat.eqb (discriminant v) (discriminant a0)) arr in
          if same_type then
            (TyStaticSlice elem_ty,
             LSlice (List.map (fun v => snd (convert_value_to_tokens v)) arr))
          else (TyStaticStr, LStr (debug_array arr))
      end
  | VTable _ => (TyStaticStr, LStr (display_value value))
  end.

End Convert.

(** ** [field.rs]: the field model *)
Module Field.
Import Utils.

(** [struct TomlField]; [value] is the referenced node itself. *)
Record TomlField := mkField {
  name : string;
  value : Value;
  path : string;
  relative_path : option string;
  toml_path : option string;
  alias : option string;
  parent : option nat;
  comment : option string
}.

(** [TomlField::new] and [TomlField::root] *)
Definition new (n p : string) (v : Value) (par : option nat) : TomlField :=
  mkField n v p None None None par None.
Definition root (v : Value) : TomlField := mkField ROOT v ROOT None None None None None.

Definition set_path (f : TomlField) (p : string) : TomlField :=
  mkField (name f) (value f) p (relative_path f) (toml_path f) (alias f) (parent f) (comment f).
Definition set_relative_path (f : TomlField) (r : option string) : TomlField :=
  mkField (name f) (value f) (path f) r (toml_path f) (alias f) (parent f) (comment f).
Definition set_alias (f : TomlField) (a : option string) : TomlField :=
  mkField (name f) (value f) (path f) (relative_path f) (toml_path f) a (parent f) (comment f).
Definition set_comment (f : TomlField) (c : option string) : TomlField :=
  mkField (name f) (value f) (path f) (relative_path f) (toml_path f) (alias f) (parent f) c.

(** [TomlField::with_toml_path] *)
Definition with_toml_path (f : TomlField) (tp : string) : TomlField :=
  mkField (name f) (value f) (path f) (relative_path f) (Some tp) (alias f) (parent f) (comment f).

(** [TomlField::with_alias] *)
Definition with_alias (f : TomlField) (a : string) : TomlField :=
  if String.eqb a ROOT then f else set_alias f (Some a).

(** [TomlField::is_table] *)
Definition is_table (f : TomlField) : bool :=
  match value f with VTable _ => true | _ => false end.

(** [TomlField::effective_module_path] *)
Definition effective_module_path (f : TomlField) : list string :=
  List.filter (fun s => negb (String.eqb s EmptyString))
    (Str.split "." (match relative_path f with Some r => r | None => path f end)).

(** [struct Patterns]: each glob set is given by the pattern strings it was
    compiled from. *)
Record Patterns := mkPatterns {
  inclusions : option (list string);
  exclusions : option (list string);
  literals : list string
}.

(** [path.split('.').last().expect(..)] *)
Definition last_segment (p : string) : string := List.last (Str.split "." p) EmptyString.

Fixpoint find_map {A B : Type} (f : A -> option B) (l : list A) : option B :=
  match l with
  | [] => None
  | x :: xs => match f x with Some y => Some y | None => find_map f xs end
  end.

Section Extract.

(** [GlobSet::is_match] of the external glob matcher, for one glob. *)
Variable glob_match : string -> string -> bool.

Definition globset_is_match (gs : list string) (p : string) : bool :=
  List.existsb (fun g => glob_match g p) gs.

Variable patterns : Patterns.
(** The alias map as (alias, original) display strings, in iteration order. *)
Variable aliases : option (list (string * string)).

(** The alias whose source equals the path, raw or normalized. *)
Definition find_alias (_path : string) : option (string * string) :=
  match aliases with
  | None => None
  | Some al =>
      let processed := to_valid_ident _path in
      find_map (fun '(a, o) =>
        if String.eqb _path o || String.eqb processed o then Some (a, o) else None) al
  end.

(** The inclusion/exclusion test of a leaf (the negation of [skip]). *)
Definition leaf_retained (path : string) : bool :=
  String.eqb path ROOT
  || ((match inclusions patterns with
       | None => true | Some g => globset_is_match g path end)
      && (match exclusions patterns with
          | None => true | Some g => negb (globset_is_match g path) end)).

(** The path after alias rewriting, before normalization. *)
Definition aliased_path (_path : string) (alias : option (string * string)) : string :=
  match alias with
  | Some (a, _) =>
      let psvec := Str.split "." _path in
      (Str.join "." (List.firstn (length psvec - 1) psvec) ++ "." ++ a)%string
  | None => _path
  end.

(** [TomlFields::extract_matched_paths_from_value]: [fields] is
    [self.fields] before the call, the result is [self.fields] after it. *)
Fixpoint extract_matched_paths_from_value (fields : list TomlField) (value : Value)
    (_path : string) (parent_idx : nat) {struct value} : list TomlField :=
  let orig_path := _path in
  let alias := find_alias _path in
  let alias_name :=
    match alias with
    | Some (a, _) => if String.eqb a "*" then None else Some a
    | None => None
    end in
  let is_alias := match alias with Some _ => true | None => false end in
  let path := to_valid_ident (aliased_path _path alias) in
  let '(field, field_idx) :=
    if Nat.eqb parent_idx 0 && (match fields with [] => true | _ => false end)
    then (root value, 0)
    else (with_toml_path
            (with_alias (new (last_segment path) path value (Some parent_idx))
               (match alias_name with Some a => a | None => ROOT end))
            orig_path,
          length fields) in
  match value with
  | VTable table =>
      (fix go (fs : list TomlField) (t : list (string * Value)) : list TomlField :=
         match t with
         | [] => fs
         | (key, val) :: t' =>
             let new_path :=
               if String.eqb path EmptyString then key else (path ++ "." ++ key)%string in
             go (extract_matched_paths_from_value fs val new_path field_idx) t'
         end) (fields ++ [field]) table
  | _ =>
      let skip := negb (leaf_retained path) in
      let '(field, skip) :=
        if is_alias && skip then (set_path field (name field), false) else (field, skip) in
      if skip then fields else fields ++ [field]
  end.

End Extract.

(** [TomlFields::get_relative_path] *)
Definition pat_segs (pat : string) : list string :=
  List.filter (fun s => negb (String.eqb s EmptyString) || String.eqb s "*" || String.eqb s "**")
    (Str.split "." pat).

Definition rel_candidate (pat path : string) : string :=
  Str.join "."
    (List.filter (fun s => negb (String.eqb s EmptyString)
                           && negb (List.existsb (String.eqb s) (pat_segs pat)))
       (Str.split "." path)).

Fixpoint get_relative_path_from (best_match : option string) (lits : list string)
    (path : string) : option string :=
  match lits with
  | [] => best_match
  | pat :: lits' =>
      if Str.starts_with "!" pat then get_relative_path_from best_match lits' path
      else
        let rel := rel_candidate pat path in
        let best' :=
          match best_match with
          | None => Some rel
          | Some b => if Nat.ltb (String.length rel) (String.length b) then Some rel
                      else best_match
          end in
        get_relative_path_from best' lits' path
  end.

Definition get_relative_path (lits : list string) (path : string) : option string :=
  get_relative_path_from None lits path.

(** [TomlFields::get_by_name] *)
Definition get_by_name (fields : list TomlField) (n : string) : option TomlField :=
  List.find (fun f => String.eqb (name f) n) fields.

(** The name looked up by [get_relative_parent_of_field]. *)
Definition relative_parent_name (f : TomlField) : string :=
  let ep := effective_module_path f in
  let ep' := List.firstn (length ep - 1) ep in
  match ep' with
  | [] => ROOT
  | _ => List.last ep' ROOT
  end.

(** [TomlFields::get_relative_parent_of_field]; [None] is the panic
    [Expected a valid relative parent field]. *)
Definition get_relative_parent_of_field (fields : list TomlField) (f : TomlField)
  : option TomlField :=
  get_by_name fields (relative_parent_name f).

(** Step 2 of [TomlFields::build]. *)
Definition attach_relative_paths (lits : list string) (fields : list TomlField)
  : list TomlField :=
  List.map (fun f =>
    match get_relative_path lits (path f) with
    | Some r => set_relative_path f (Some r)
    | None => f
    end) fields.

(** [self.fields.iter_mut().find(|f| f.path == orig)] then the update. *)
Fixpoint update_first (p : TomlField -> bool) (g : TomlField -> TomlField)
    (l : list TomlField) : list TomlField :=
  match l with
  | [] => []
  | x :: xs => if p x then g x :: xs else x :: update_first p g xs
  end.

(** Step 3 of [TomlFields::build]. *)
Definition attach_aliases (aliases : option (list (string * string)))
    (fields : list TomlField) : list TomlField :=
  List.fold_left (fun fs '(a, o) =>
    update_first (fun f => String.eqb (path f) o) (fun f => set_alias f (Some a)) fs)
    (match aliases with Some al => al | None => [] end) fields.

(** The four-step comment lookup of step 4 of [TomlFields::build]. *)
Definition lookup_comment (comments : option (Map.t string)) (f : TomlField)
  : option string :=
  match comments with
  | None => None
  | Some c =>
      match Map.get (path f) c with
      | Some x => Some x
      | None =>
          match Map.get (snake_to_kebab (path f)) c with
          | Some x => Some x
          | None =>
              match toml_path f with
              | Some tp =>
                  match Map.get tp c with
                  | Some x => Some x
                  | None => Map.get (snake_to_kebab tp) c
                  end
              | None => None
              end
          end
      end
  end.

Definition attach_comments (comments : option (Map.t string)) (fields : list TomlField)
  : list TomlField :=
  List.map (fun f =>
    match lookup_comment comments f with
    | Some c => set_comment f (Some c)
    | None => f
    end) fields.

(** [TomlFields::build], from an empty field list. *)
Definition build (glob_match : string -> string -> bool) (patterns : Patterns)
    (aliases : option (list (string * string))) (comments : option (Map.t string))
    (root_value : Value) : list TomlField :=
  let fields :=
    extract_matched_paths_from_value glob_match patterns aliases [] root_value ROOT 0 in
  attach_comments comments
    (attach_aliases aliases (attach_relative_paths (literals patterns) fields)).

End Field.

(** ** The glob matcher on the patterns the selection grammar produces

    Patterns are identifiers, [.], [*] and [**]; with [globset]'s default
    options ([literal_separator] off) both [*] and [**] then match any run
    of characters, and every other character matches itself. *)
Module Glob.

(** [globset] matching of a glob whose only metacharacter is [*]: a [*]
    matches any run of characters (the dotted paths hold no [/]), every
    other character matches itself.  The metacharacters [? [ ] { } \] are
    not modelled: they read as literal characters here. *)
Fixpoint matches (g : list ascii) (s : list ascii) {struct g} : bool :=
  match g with
  | [] => match s with [] => true | _ => false end
  | c :: g' =>
      if Ascii.eqb c "*" then
        (fix any (s : list ascii) : bool :=
           matches g' s || match s with [] => false | _ :: s' => any s' end) s
      else match s with
           | [] => false
           | d :: s' => Ascii.eqb c d && matches g' s'
           end
  end.

Definition is_match (glob p : string) : bool :=
  matches (list_ascii_of_string glob) (list_ascii_of_string p).

End Glob.

(** ** [module.rs]: [RootModule] *)
Module RootModule.
Import Utils.

(** [struct RootModuleSource]; each [Pattern] is given by its [Display]
    string, the only form of it [RootModule::build] uses. *)
Record RootModuleSource := mkSource {
  src_name : string;
  inclusion_pats : list string;
  exclusion_pats : list string;
  src_aliases : list (string * string);
  src_comments : Map.t string
}.

Record RootModule := mkRootModule {
  source : RootModuleSource;
  toml : Value;
  fields : list Field.TomlField
}.

(** The patterns handed to [TomlFields] by [RootModule::build]: both glob
    sets are always present.  ([Glob::new(..).expect(..)] does not fail on
    strings the pattern grammar produces.) *)
Definition build_patterns (s : RootModuleSource) : Field.Patterns :=
  Field.mkPatterns (Some (inclusion_pats s)) (Some (exclusion_pats s))
    (inclusion_pats s ++ List.map (fun p => String.append "!" p) (exclusion_pats s)).

(** [RootModule::build] *)
Definition build (glob_match : string -> string -> bool) (m : RootModule) : RootModule :=
  mkRootModule (source m) (toml m)
    (Field.build glob_match (build_patterns (source m)) (Some (src_aliases (source m)))
       (Some (src_comments (source m))) (toml m)).

(** A computation that may panic. *)
Inductive outcome (A : Type) :=
| Ok (a : A)
| Panic (msg : string).
Arguments Ok {A} a.
Arguments Panic {A} msg.

(** [Path::join]: an absolute right operand replaces the left one. *)
Definition path_join (base p : string) : string :=
  if Str.starts_with "/" p then p
  else if String.eqb base EmptyString then p
  else (base ++ "/" ++ p)%string.

(** [Option::unwrap_or] and [Option::unwrap_or_default] on [String]. *)
Definition unwrap_or (o : option string) (d : string) : string :=
  match o with Some x => x | None => d end.

Section New.

(** [fs::read_to_string], [None] being any I/O error. *)
Variable read_to_string : string -> option string.
(** The value of [CARGO_MANIFEST_DIR], if set. *)
Variable manifest_dir : option string.
(** The directory [utils::find_workspace_root] returns when the variable is set. *)
Variable workspace_root : string.
(** [str::parse::<toml::Value>], [None] being a decoder error. *)
Variable parse_toml : string -> option Value.
Variable glob_match : string -> string -> bool.

(** [RootModule::new].  The three reads are evaluated eagerly (the
    arguments of [unwrap_or]); [find_workspace_root] panics first when
    [CARGO_MANIFEST_DIR] is unset. *)
Definition new (source : RootModuleSource) (toml_path : string) : outcome RootModule :=
  let r1 := read_to_string toml_path in
  match manifest_dir with
  | None => Panic "CARGO_MANIFEST_DIR not set"
  | Some md =>
      let r2 := read_to_string (path_join workspace_root toml_path) in
      let r3 := read_to_string (path_join md toml_path) in
      let toml_raw := unwrap_or r1 (unwrap_or r2 (unwrap_or r3 EmptyString)) in
      match parse_toml toml_raw with
      | None => Panic ("Failed to parse toml file: " ++ toml_path)%string
      | Some toml =>
          let source' :=
            mkSource (src_name source) (inclusion_pats source) (exclusion_pats source)
              (src_aliases source) (Comments.extract_comments toml_raw) in
          Ok (build glob_match (mkRootModule source' toml []))
      end
  end.

(** The read-and-parse prologue of [generate_modules] in [lib.rs], the
    sibling entry path. *)
Definition generate_modules_read (toml_path : string) : outcome Value :=
  match read_to_string toml_path with
  | None => Panic ("Failed to read TOML at " ++ toml_path)%string
  | Some toml_content =>
      match parse_toml toml_content with
      | None => Panic "Failed to parse TOML"
      | Some v => Ok v
      end
  end.

End New.

End RootModule.

(** * Concrete documents *)
Module Docs.
Import Comments.

Definition nls : string := String Str.nl EmptyString.

(** Two spaces after the [#] of a preceding comment line. *)
Definition two_space_comment : string :=
  ("#  two" ++ nls ++ "k = 1" ++ nls)%string.

(** A basic multi-line string ([v = ] followed by three double quotes)
    whose first content line is a backslash-escaped double quote followed by
    two more double quotes, then a [#] line and a [key = value] line, closed
    by three double quotes on a line of their own.  Valid TOML: the string
    holds a quote run of three, a comment-like line and a key-like line. *)
Definition escaped_quote_string : string :=
  ("v = " ++ dq3 ++ nls ++ "\" ++ dq3 ++ nls ++ "# inside" ++ nls
   ++ "k = 1" ++ nls ++ dq3 ++ nls)%string.

Definition empty_inline : string := ("key = 1 #" ++ nls)%string.
Definition bare_hash_line : string := ("#" ++ nls ++ "key = 1" ++ nls)%string.

(** A leading double quote without a closing one. *)
Definition half_quoted : string := String dquote "a".

(** The selection [[x] a]: one inclusion pattern, no alias. *)
Definition select_a : RootModule.RootModuleSource :=
  RootModule.mkSource "x" ["a"] [] [] [].

(** The selection [[x]] with no pattern at all. *)
Definition select_none : RootModule.RootModuleSource :=
  RootModule.mkSource "x" [] [] [] [].

Definition built (s : RootModule.RootModuleSource) (v : Value) : list Field.TomlField :=
  RootModule.fields
    (RootModule.build Glob.is_match (RootModule.mkRootModule s v [])).

(** [{"" = 1}]: a top-level entry under the empty quoted key. *)
Definition empty_key_doc : Value := VTable [(EmptyString, VInteger 1)].

(** [["p.q"]]: a table under a quoted key holding a dot. *)
Definition dotted_key_doc : Value := VTable [("p.q", VTable [])].

(** [[a.x.y]] and [[b.x.y]]: two tables named [x]. *)
Definition twin_doc : Value :=
  VTable [("a", VTable [("x", VTable [("y", VTable [])])]);
          ("b", VTable [("x", VTable [("y", VTable [])])])].

(** [[x] *]: the single inclusion pattern [*]. *)
Definition select_star : RootModule.RootModuleSource :=
  RootModule.mkSource "x" ["*"] [] [] [].

(** [a."" = 1]: a leaf under the empty quoted key inside table [a]. *)
Definition empty_leaf_doc : Value := VTable [("a", VTable [(EmptyString, VInteger 1)])].

End Docs.

(** Notions used to state properties of [TomlFields::build]. *)
Module Analysis.

(** A field not yet given a relative path. *)
Definition RN (f : Field.TomlField) : Prop := Field.relative_path f = None.

(** A field whose relative path is the one [get_relative_path] computes
    from its path. *)
Definition rel_ok (lits : list string) (f : Field.TomlField) : Prop :=
  Field.relative_path f = Field.get_relative_path lits (Field.path f).

(** One step of the running minimum of [get_relative_path]: a strictly
    shorter candidate replaces the best one. *)
Definition min_step (best : option string) (c : string) : option string :=
  match best with
  | None => Some c
  | Some b => if Nat.ltb (String.length c) (String.length b) then Some c else best
  end.

(** The candidate relative paths of [path], one per non-negated literal, in
    pattern order. *)
Definition candidates (lits : list string) (path : string) : list string :=
  List.map (fun pat => Field.rel_candidate pat path)
    (List.filter (fun pat => negb (Str.starts_with "!" pat)) lits).

(** The candidate as the specification words it: the path's segments
    without those in the pattern's segment list. *)
Definition spec_rel_candidate (pat path : string) : string :=
  Str.join "."
    (List.filter (fun s => negb (List.existsb (String.eqb s) (Field.pat_segs pat)))
       (Str.split "." path)).

(** The characters of a string. *)
Definition chars (s : string) : list ascii := list_ascii_of_string s.

(** The delimiter that ends a multi-line string of the given kind. *)
Definition closing (s : Comments.StringState) : string :=
  match s with Comments.MultiSingleQuote => Comments.sq3 | _ => Comments.dq3 end.

End Analysis.

(** ** [field.rs]: navigation and code generation over the field list *)
Module FieldNav.
Import Field RootModule.

(** The NaN test of an IEEE-754 binary64 bit pattern: all exponent bits set
    and a nonzero mantissa. *)
Definition is_nan (bits : Z) : bool :=
  Z.eqb (Z.land (Z.shiftr bits 52) 2047) 2047
  && negb (Z.eqb (Z.land bits (2 ^ 52 - 1)) 0).

(** [f64 == f64]: a NaN equals nothing, the two zeros are equal, other
    values are equal when their bit patterns are. *)
Definition float_eqb (x y : Z) : bool :=
  if is_nan x || is_nan y then false
  else if Z.eqb (Z.land x (2 ^ 63 - 1)) 0 && Z.eqb (Z.land y (2 ^ 63 - 1)) 0 then true
  else Z.eqb x y.

(** The derived [PartialEq] of [toml::Value]; arrays compare as [Vec]s and
    tables as [BTreeMap]s (same length, then entrywise in key order). *)
Fixpoint value_eqb (a b : Value) {struct a} : bool :=
  match a, b with
  | VString x, VString y => String.eqb x y
  | VInteger x, VInteger y => Z.eqb x y
  | VFloat x, VFloat y => float_eqb x y
  | VBoolean x, VBoolean y => Bool.eqb x y
  | VDatetime x, VDatetime y => String.eqb x y
  | VArray xs, VArray ys =>
      (fix go (xs ys : list Value) : bool :=
         match xs, ys with
         | [], [] => true
         | x :: xs', y :: ys' => value_eqb x y && go xs' ys'
         | _, _ => false
         end) xs ys
  | VTable xs, VTable ys =>
      (fix go (xs ys : list (string * Value)) : bool :=
         match xs, ys with
         | [], [] => true
         | (k, x) :: xs', (k', y) :: ys' => String.eqb k k' && value_eqb x y && go xs' ys'
         | _, _ => false
         end) xs ys
  | _, _ => false
  end.

(** A NaN float somewhere in a value. *)
Fixpoint has_nan (v : Value) : bool :=
  match v with
  | VFloat b => is_nan b
  | VArray xs => (fix go (xs : list Value) : bool :=
                    match xs with [] => false | x :: xs' => has_nan x || go xs' end) xs
  | VTable xs => (fix go (xs : list (string * Value)) : bool :=
                    match xs with [] => false | (_, x) :: xs' => has_nan x || go xs' end) xs
  | _ => false
  end.

Definition option_eqb {A : Type} (eqb : A -> A -> bool) (a b : option A) : bool :=
  match a, b with
  | Some x, Some y => eqb x y
  | None, None => true
  | _, _ => false
  end.

(** The derived [PartialEq] of [TomlField]. *)
Definition field_eqb (a b : TomlField) : bool :=
  String.eqb (name a) (name b)
  && value_eqb (value a) (value b)
  && String.eqb (path a) (path b)
  && option_eqb String.eqb (relative_path a) (relative_path b)
  && option_eqb String.eqb (toml_path a) (toml_path b)
  && option_eqb String.eqb (alias a) (alias b)
  && option_eqb Nat.eqb (parent a) (parent b)
  && option_eqb String.eqb (comment a) (comment b).

(** [TomlFields::get_field] *)
Definition get_field (fields : list TomlField) (idx : nat) : option TomlField :=
  nth_error fields idx.

(** [Iterator::position] *)
Fixpoint position {A : Type} (p : A -> bool) (l : list A) : option nat :=
  match l with
  | [] => None
  | x :: xs => if p x then Some 0 else option_map S (position p xs)
  end.

(** [TomlFields::index_of] *)
Definition index_of (fields : list TomlField) (field : TomlField) : option nat :=
  position (fun f => field_eqb f field) fields.

(** The filter of [TomlFields::get_relative_children_of], run over [l] in
    order; the first [expect] that fails is the panic. *)
Fixpoint relative_children (fields : list TomlField) (this_idx : nat)
    (this_field : TomlField) (l : list TomlField) : outcome (list TomlField) :=
  match l with
  | [] => Ok []
  | field :: l' =>
      match index_of fields field with
      | None => Panic "Expected a valid index of a field that exists"
      | Some idx =>
          if Nat.eqb idx this_idx then relative_children fields this_idx this_field l'
          else
            match get_relative_parent_of_field fields field with
            | None => Panic "Expected a valid relative parent field"
            | Some p =>
                if field_eqb p this_field then
                  match relative_children fields this_idx this_field l' with
                  | Ok r => Ok (field :: r)
                  | Panic m => Panic m
                  end
                else relative_children fields this_idx this_field l'
            end
      end
  end.

(** [TomlFields::get_relative_children_of] *)
Definition get_relative_children_of (fields : list TomlField) (this_idx : nat)
  : outcome (list TomlField) :=
  match get_field fields this_idx with
  | None => Panic "Expected a valid field"
  | Some this_field => relative_children fields this_idx this_field fields
  end.

(** ASCII [to_lowercase] and [to_uppercase]. *)
Definition lower_char (c : ascii) : ascii :=
  let n := nat_of_ascii c in
  if (65 <=? n)%nat && (n <=? 90)%nat then ascii_of_nat (n + 32)%nat else c.
Definition upper_char (c : ascii) : ascii :=
  let n := nat_of_ascii c in
  if (97 <=? n)%nat && (n <=? 122)%nat then ascii_of_nat (n - 32)%nat else c.
Fixpoint map_chars (g : ascii -> ascii) (s : string) : string :=
  match s with
  | EmptyString => EmptyString
  | String c s' => String (g c) (map_chars g s')
  end.
Definition to_lowercase (s : string) : string := map_chars lower_char s.
Definition to_uppercase (s : string) : string := map_chars upper_char s.

(** [utils::get_doc_comment]: the doc attribute, absent for a missing or
    empty comment. *)
Definition get_doc_comment (f : TomlField) : option string :=
  let c := unwrap_or (comment f) EmptyString in
  if String.eqb c EmptyString then None else Some c.

(** The items [generate_module] emits. *)
Inductive Item :=
| IConst (doc : option string) (const_name : string) (ty : Ty) (val : Lit)
| IMod (doc : option string) (mod_ident : string) (body : list Item).

Section Generate.

Variable debug_array : list Value -> string.
Variable display_value : Value -> string.
(** The identifier check of [proc_macro2::Ident::new]. *)
Variable valid_ident : string -> bool.

(** [format_ident!("{}", s)], which panics on a string that is not an
    identifier. *)
Definition format_ident (s : string) : outcome string :=
  if valid_ident s then Ok s else Panic (s ++ " is not a valid Ident")%string.

(** The constants loop of [generate_module]. *)
Fixpoint constants (l : list TomlField) : outcome (list Item) :=
  match l with
  | [] => Ok []
  | field :: l' =>
      if is_table field then constants l'
      else
        let '(ty, val) := convert_value_to_tokens debug_array display_value (value field) in
        match format_ident (to_uppercase (Utils.to_valid_ident (name field))) with
        | Panic m => Panic m
        | Ok const_name =>
            match constants l' with
            | Panic m => Panic m
            | Ok r => Ok (IConst (get_doc_comment field) const_name ty val :: r)
            end
        end
  end.

(** [TomlFields::generate_module]; the items it appends to [tokens].  The
    recursion of the source is unbounded: [fuel] bounds its depth and
    [None] means the depth went past it. *)
Fixpoint generate_module (fuel : nat) (fields : list TomlField) (idx : nat)
  : option (outcome (list Item)) :=
  match fuel with
  | 0 => None
  | S fuel' =>
      match get_field fields idx with
      | None => Some (Panic "Expected a valid index to an existing field")
      | Some this_field =>
          let module_name := List.last (Str.split "." (path this_field)) EmptyString in
          let mod_ident :=
            if negb (String.eqb module_name EmptyString) then
              match format_ident (to_lowercase (Utils.to_valid_ident module_name)) with
              | Ok i => Ok (Some i)
              | Panic m => Panic m
              end
            else Ok None in
          match mod_ident with
          | Panic m => Some (Panic m)
          | Ok mod_ident =>
              match get_relative_children_of fields idx with
              | Panic m => Some (Panic m)
              | Ok children =>
                  match constants children with
                  | Panic m => Some (Panic m)
                  | Ok cs =>
                      let fix submodules (l : list TomlField) : option (outcome (list Item)) :=
                        match l with
                        | [] => Some (Ok [])
                        | submod :: l' =>
                            if is_table submod then
                              match index_of fields submod with
                              | None => Some (Panic "Expected a valid child that exists and thus has an index")
                              | Some j =>
                                  match generate_module fuel' fields j with
                                  | None => None
                                  | Some (Panic m) => Some (Panic m)
                                  | Some (Ok items) =>
                                      match submodules l' with
                                      | None => None
                                      | Some (Panic m) => Some (Panic m)
                                      | Some (Ok r) => Some (Ok (items ++ r))
                                      end
                                  end
                              end
                            else submodules l'
                        end in
                      match submodules children with
                      | None => None
                      | Some (Panic m) => Some (Panic m)
                      | Some (Ok subs) =>
                          let mod_tokens := cs ++ subs in
                          match mod_tokens with
                          | [] => Some (Ok [])
                          | _ =>
                              match mod_ident with
                              | Some i => Some (Ok [IMod (get_doc_comment this_field) i mod_tokens])
                              | None => Some (Ok mod_tokens)
                              end
                          end
                      end
                  end
              end
          end
      end
  end.

(** [TomlFields::generate_modules] *)
Definition generate_modules (fuel : nat) (fields : list TomlField)
  : option (outcome (list Item)) :=
  generate_module fuel fields 0.

End Generate.

(** The part of a field that the last three steps of [build] leave alone. *)
Definition skeleton (f : TomlField) : string * Value * string * option string * option nat :=
  (name f, value f, path f, toml_path f, parent f).

(** The parent indices of a field list form a tree rooted at index 0: only
    the field at index 0 has no parent, every other parent index points to
    an earlier field that is a table. *)
Definition parents_ok (fields : list TomlField) : Prop :=
  forall i f, nth_error fields i = Some f ->
    match parent f with
    | None => i = 0
    | Some j => j < i /\ exists g, nth_error fields j = Some g /\ is_table g = true
    end.

(** The precondition of a call of [extract_matched_paths_from_value] in
    the recursion: either the first call on an empty list, or a parent index
    that points to a table field. *)
Definition pre (fs : list TomlField) (idx : nat) : Prop :=
  (fs = [] /\ idx = 0)
  \/ exists g, nth_error fs idx = Some g /\ is_table g = true.

End FieldNav.

(** ** [lib.rs]: the section generator of the [workspace!], [package!] and
    [file!] macros *)
Module LibGen.
Import Utils.

(** [struct PathPattern] *)
Record PathPattern := mkPathPattern { pp_path : string; is_glob : bool }.

(** [struct ConfigSection]; the alias map sends a source path to its target. *)
Record ConfigSection := mkSection {
  sec_name : string;
  includes : list PathPattern;
  excludes : list PathPattern;
  sec_aliases : Map.t string
}.

(** [extract_all_paths]: [results] before the call, the vector after it. *)
Fixpoint extract_all_paths (value : Value) (prefix : string)
    (results : list (string * Value)) {struct value} : list (string * Value) :=
  match value with
  | VTable table =>
      let results :=
        if String.eqb prefix EmptyString then results else results ++ [(prefix, value)] in
      (fix go (rs : list (string * Value)) (t : list (string * Value)) :=
         match t with
         | [] => rs
         | (key, val) :: t' =>
             let new_prefix :=
               if String.eqb prefix EmptyString then key else (prefix ++ "." ++ key)%string in
             go (extract_all_paths val new_prefix rs) t'
         end) results table
  | _ => if String.eqb prefix EmptyString then results else results ++ [(prefix, value)]
  end.

(** The items [generate_section_module] emits. *)
Inductive LibItem :=
| LConst (doc : string) (const_name : string) (ty : Ty) (val : Lit)
| LMod (mod_name : string) (body : list LibItem).

(** [HashMap::entry(k).or_default().extend(items)] on an association list
    with distinct keys. *)
Definition entry_extend {V : Type} (k : string) (items : list V)
    (m : list (string * list V)) : list (string * list V) :=
  match Map.get k m with
  | Some _ => List.map (fun '(k', v) => if String.eqb k' k then (k', v ++ items) else (k', v)) m
  | None => m ++ [(k, items)]
  end.

(** [HashMap::remove(k)], the removed value dropped. *)
Definition remove {V : Type} (k : string) (m : list (string * V)) : list (string * V) :=
  List.filter (fun p => negb (String.eqb (fst p) k)) m.

(** The strings a [GlobSet] built from [pats] is made of. *)
Definition include_globs (s : ConfigSection) : list string :=
  List.map (fun p => if is_glob p then pp_path p else (pp_path p ++ "*")%string) (includes s).
Definition exclude_globs (s : ConfigSection) : list string :=
  List.map pp_path (excludes s).

(** The module path of a leaf: the segments other than the first one's
    repetitions, without the last, nonempty, after the section name if it
    occurs, each normalized. *)
Definition module_path_of (section_name path : string) : string :=
  let split := Str.split "." path in
  let parts := List.filter (fun p => negb (String.eqb p (List.hd EmptyString split))) split in
  let path_parts :=
    List.filter (fun p => negb (String.eqb p EmptyString)) (List.firstn (length parts - 1) parts) in
  let filtered_parts :=
    match FieldNav.position (fun part => String.eqb part section_name) path_parts with
    | Some pos => List.skipn (pos + 1) path_parts
    | None => path_parts
    end in
  Str.join "." (List.map to_valid_ident filtered_parts).

Section Generate.

(** [GlobSet::is_match] of the external glob matcher, for one glob. *)
Variable glob_match : string -> string -> bool.
(** The identifier check of [proc_macro2::Ident::new]. *)
Variable valid_ident : string -> bool.
Variable debug_array : list Value -> string.
Variable display_value : Value -> string.

Definition globset_is_match (gs : list string) (p : string) : bool :=
  List.existsb (fun g => glob_match g p) gs.

(** One iteration of the constants loop of [generate_section_module] on
    [processed_consts] and [module_tree]. *)
Definition const_step (section : ConfigSection) (comments : Map.t string)
    (st : list string * list (string * list LibItem)) (pv : string * Value)
  : RootModule.outcome (list string * list (string * list LibItem)) :=
  let '(processed, tree) := st in
  let '(path, value) := pv in
  match value with
  | VTable _ => RootModule.Ok st
  | _ =>
      if negb (globset_is_match (include_globs section) path) then RootModule.Ok st
      else if globset_is_match (exclude_globs section) path then RootModule.Ok st
      else
        let last_part := List.last (Str.split "." path) path in
        let field_name :=
          match Map.get path (sec_aliases section) with Some a => a | None => last_part end in
        let is_aliased := negb (String.eqb field_name last_part) in
        match FieldNav.format_ident valid_ident
                (FieldNav.to_uppercase (to_valid_ident field_name)) with
        | RootModule.Panic m => RootModule.Panic m
        | RootModule.Ok const_name =>
            let module_path := module_path_of (sec_name section) path in
            let const_key :=
              if is_aliased then
                (module_path ++ "::" ++ const_name ++ " (alias for " ++ last_part ++ ")")%string
              else (module_path ++ "::" ++ const_name)%string in
            let const_key :=
              if String.prefix "::" const_key then Str.drop 2 const_key else const_key in
            if List.existsb (String.eqb const_key) processed then RootModule.Ok st
            else
              let doc_comment :=
                match Map.get path comments with
                | Some comment => ("Source: " ++ path ++ String Str.nl (String Str.nl comment))%string
                | None => ("Source: " ++ path)%string
                end in
              let '(ty, val) := convert_value_to_tokens debug_array display_value value in
              RootModule.Ok (processed ++ [const_key],
                             entry_extend module_path [LConst doc_comment const_name ty val] tree)
        end
  end.

Fixpoint const_loop (section : ConfigSection) (comments : Map.t string)
    (st : list string * list (string * list LibItem)) (l : list (string * Value))
  : RootModule.outcome (list string * list (string * list LibItem)) :=
  match l with
  | [] => RootModule.Ok st
  | pv :: l' =>
      match const_step section comments st pv with
      | RootModule.Panic m => RootModule.Panic m
      | RootModule.Ok st' => const_loop section comments st' l'
      end
  end.

(** One iteration of the module-building loop on [module_map] and
    [processed_modules]. *)
Definition module_step (depth : nat)
    (st : list (string * list LibItem) * list string) (path : string)
  : RootModule.outcome (list (string * list LibItem) * list string) :=
  let '(module_map, processed_modules) := st in
  let parts := Str.split "." path in
  if negb (Nat.eqb (length parts) depth) || List.existsb (String.eqb path) processed_modules
  then RootModule.Ok st
  else if String.eqb path EmptyString then RootModule.Ok st
  else
    let processed_modules := processed_modules ++ [path] in
    let content := match Map.get path module_map with Some c => c | None => [] end in
    let module_map := remove path module_map in
    let last := List.last parts EmptyString in
    if String.eqb last EmptyString then RootModule.Ok (module_map, processed_modules)
    else
      match FieldNav.format_ident valid_ident (to_valid_ident last) with
      | RootModule.Panic m => RootModule.Panic m
      | RootModule.Ok module_name =>
          let parent_path :=
            if Nat.ltb 1 (length parts) then
              Str.join "." (List.filter (fun p => negb (String.eqb p EmptyString))
                              (List.firstn (length parts - 1) parts))
            else EmptyString in
          RootModule.Ok (entry_extend parent_path [LMod module_name content] module_map,
                         processed_modules)
      end.

Fixpoint module_loop (depth : nat) (paths : list string)
    (st : list (string * list LibItem) * list string)
  : RootModule.outcome (list (string * list LibItem) * list string) :=
  match paths with
  | [] => RootModule.Ok st
  | p :: ps =>
      match module_step depth st p with
      | RootModule.Panic m => RootModule.Panic m
      | RootModule.Ok st' => module_loop depth ps st'
      end
  end.

(** [for depth in (1..=n).rev()] *)
Fixpoint depth_loop (n : nat) (paths : list string)
    (st : list (string * list LibItem) * list string)
  : RootModule.outcome (list (string * list LibItem) * list string) :=
  match n with
  | 0 => RootModule.Ok st
  | S n' =>
      match module_loop n paths st with
      | RootModule.Panic m => RootModule.Panic m
      | RootModule.Ok st' => depth_loop n' paths st'
      end
  end.

(** [generate_section_module]: the emitted items and [processed_consts].
    [order1] and [order2] are the iteration orders of the two [HashMap]
    traversals (the keys of [module_map] collected into [paths], and the
    final traversal), given the keys in insertion order.  The pattern
    compilation [Glob::new(..).unwrap()] at the start is not modelled: its
    panic on a malformed glob (such as [[x]) does not occur here. *)
Definition generate_section_module (order1 order2 : list string -> list string)
    (toml : Value) (section : ConfigSection) (comments : Map.t string)
  : RootModule.outcome (list LibItem * list string) :=
  let all_paths := extract_all_paths toml EmptyString [] in
  match const_loop section comments ([], []) all_paths with
  | RootModule.Panic m => RootModule.Panic m
  | RootModule.Ok (processed_consts, module_tree) =>
      let paths := order1 (List.map fst module_tree) in
      match depth_loop 20 paths (module_tree, []) with
      | RootModule.Panic m => RootModule.Panic m
      | RootModule.Ok (module_map, _) =>
          let module_content :=
            List.flat_map (fun k => match Map.get k module_map with Some c => c | None => [] end)
              (order2 (List.map fst module_map)) in
          RootModule.Ok (module_content, processed_consts)
      end
  end.

End Generate.

(** A constant item. *)
Definition is_const (it : LibItem) : bool :=
  match it with LConst _ _ _ _ => true | LMod _ _ => false end.

(** Every module, at any depth, holds a constant directly. *)
Fixpoint item_ok (it : LibItem) : bool :=
  match it with
  | LConst _ _ _ _ => true
  | LMod _ body =>
      existsb is_const body
      && (fix go (l : list LibItem) : bool :=
            match l with [] => true | x :: xs => item_ok x && go xs end) body
  end.

(** The constants of an item, at any depth. *)
Fixpoint consts_rec (it : LibItem) : list LibItem :=
  match it with
  | LConst _ _ _ _ => [it]
  | LMod _ body =>
      (fix go (l : list LibItem) : list LibItem :=
         match l with [] => [] | x :: xs => (consts_rec x ++ go xs)%list end) body
  end.

(** A constant made from a leaf of the document that an inclusion pattern
    matches and no exclusion pattern matches, documented with its path and
    its harvested comment. *)
Definition const_source (glob_match : string -> string -> bool) (toml : Value)
    (section : ConfigSection) (comments : Map.t string) (it : LibItem) : Prop :=
  match it with
  | LConst doc _ _ _ =>
      exists path v,
        In (path, v) (extract_all_paths toml EmptyString [])
        /\ (forall t, v <> VTable t)
        /\ globset_is_match glob_match (include_globs section) path = true
        /\ globset_is_match glob_match (exclude_globs section) path = false
        /\ doc = match Map.get path comments with
                 | Some comment => ("Source: " ++ path ++ String Str.nl (String Str.nl comment))%string
                 | None => ("Source: " ++ path)%string
                 end
  | LMod _ _ => False
  end.

(** The invariants of the two loops of [generate_section_module]. *)
Definition has_const (c : list LibItem) : Prop :=
  exists d n ty v, In (LConst d n ty v) c.

Definition map_ok (Q : LibItem -> Prop) (m : list (string * list LibItem)) : Prop :=
  forall k c, In (k, c) m -> Forall Q c.

(** Every path still to be processed holds a constant in the module map. *)
Definition pending (paths : list string) (mm : list (string * list LibItem))
    (pr : list string) : Prop :=
  forall p, In p paths -> ~ In p pr -> exists c, Map.get p mm = Some c /\ has_const c.

(** Every module path of the module tree holds a nonempty list of constants
    made from included leaves. *)
Definition tree_ok (glob_match : string -> string -> bool) (toml : Value)
    (section : ConfigSection) (comments : Map.t string)
    (tree : list (string * list LibItem)) : Prop :=
  forall k c, In (k, c) tree ->
    c <> [] /\ Forall (fun it => is_const it = true /\ const_source glob_match toml section comments it) c.

End LibGen.

(** ** [lib.rs]: the comment harvester used by the section generator *)
Module LibComments.
Import Comments.

(** The loop state of [lib.rs]'s [extract_comments]. *)
Record lstate := mkLState {
  lcomments : Map.t string;
  lcurrent_comments : list string;
  lcurrent_path : list string
}.

(** One iteration of its [for line in lines] loop. *)
Definition step (st : lstate) (line : string) : lstate :=
  let trimmed := Str.trim line in
  if Str.starts_with "[" trimmed && Str.ends_with "]" trimmed then
    mkLState (lcomments st) []
      (Str.split "." (Str.slice 1 (String.length trimmed - 1) trimmed))
  else if Str.starts_with "#" trimmed then
    mkLState (lcomments st) (lcurrent_comments st ++ [Str.trim (Str.drop 1 trimmed)])
      (lcurrent_path st)
  else
    match Str.find "=" trimmed with
    | Some pos =>
        if negb (String.eqb trimmed "") then
          let key := Str.trim (Str.take pos trimmed) in
          let path_str := Str.join "." (lcurrent_path st ++ [key]) in
          let key_comments :=
            push_opt (lcurrent_comments st) (extract_inline_comment trimmed pos) in
          mkLState (insert_nonempty path_str key_comments (lcomments st)) []
            (lcurrent_path st)
        else st
    | None => st
    end.

Definition run (st : lstate) (ls : list string) : lstate := List.fold_left step ls st.

(** [extract_comments] of [lib.rs] *)
Definition extract_comments (content : string) : Map.t string :=
  lcomments (run (mkLState [] [] []) (Str.lines content)).

End LibComments.

(** Sample inputs of the section generator and the comment extractor of
    [lib.rs]. *)
Module LibSamples.
Import LibGen.

Definition doc : Value :=
  VTable [("package", VTable [("name", VString "x");
                             ("metadata", VTable [("a", VTable [("b", VInteger 1)])])])].

Definition package_section : ConfigSection :=
  mkSection "package" [mkPathPattern "package.*" true] [] [].

Definition no_debug (_ : list Value) : string := EmptyString.
Definition no_display (_ : Value) : string := EmptyString.

End LibSamples.


(** * Properties *)

(** ** Identifier normalization *)

(** C8 (counterexample): [to_valid_ident] strips a leading double quote
    that has no closing partner, which the rule of section 4.1 (strip the
    pair only when the first and the last character are both a quote)
    leaves in place. *)
Lemma to_valid_ident_half_quoted :
  Utils.to_valid_ident Docs.half_quoted = "a" /\
  Utils.to_valid_ident_spec Docs.half_quoted = Docs.half_quoted /\
  Utils.to_valid_ident Docs.half_quoted <> Utils.to_valid_ident_spec Docs.half_quoted.
Proof. vm_compute. split; [reflexivity | split; [reflexivity | discriminate]]. Qed.

(** ** Value to declaration *)


(** ** Comment harvesting *)

(** C6 (failing input): a line holding an escaped quote followed by two
    quotes inside a basic multi-line string ends the harvester's string
    state, so the [#] line and the [key = value] line after it, both inside
    the string, produce the entry [k -> inside]. *)
Theorem comment_harvested_inside_multiline_string :
  Comments.extract_comments Docs.escaped_quote_string = [("k", "inside")].
Proof. vm_compute. reflexivity. Qed.

(** C7 (counterexample): a preceding comment line loses all the whitespace
    after its [#], not a single space: [#  two] yields [two], not [ two]. *)
Lemma comment_line_fully_trimmed :
  Map.get "k" (Comments.extract_comments Docs.two_space_comment) = Some "two" /\
  Map.get "k" (Comments.extract_comments Docs.two_space_comment) <> Some " two".
Proof. vm_compute. split; [reflexivity | discriminate]. Qed.

(** ** Field model *)

(** C1 (counterexample): under the inclusion pattern [a], which does not
    match the empty path, the leaf of the empty quoted key is retained: its
    normalized path is the root sentinel, which the leaf test lets through
    unconditionally. *)
Lemma root_path_leaf_retained :
  Glob.is_match "a" EmptyString = false /\
  Field.find_alias (Some []) EmptyString = None /\
  exists f, In f (Docs.built Docs.select_a Docs.empty_key_doc)
            /\ Field.value f = VInteger 1 /\ Field.path f = EmptyString.
Proof.
  split; [vm_compute; reflexivity|]. split; [reflexivity|].
  eexists. split; [vm_compute; right; left; reflexivity|]. split; reflexivity.
Qed.

(** ** The harvester's line steps *)
Module CommentSteps.
Import Comments.

Lemma set_current_comments_twice : forall st a b,
  set_current_comments (set_current_comments st a) b = set_current_comments st b.
Proof. intros [] a b. reflexivity. Qed.

Lemma set_current_comments_same : forall st,
  set_current_comments st (current_comments st) = st.
Proof. intros []. reflexivity. Qed.

Lemma run_app : forall st l1 l2, run st (l1 ++ l2) = run (run st l1) l2.
Proof. intros. unfold run. apply fold_left_app. Qed.

Lemma starts_with_find : forall c s, Str.starts_with c s = true -> Str.find c s = Some 0.
Proof.
  intros c [|c' s]; unfold Str.starts_with; [discriminate|]. intros H.
  cbn [Str.find]. rewrite H. reflexivity.
Qed.

Lemma starts_with_nonempty : forall c s, Str.starts_with c s = true -> s <> EmptyString.
Proof. intros c [|c' s]; unfold Str.starts_with; [discriminate|]. intros _ H. discriminate. Qed.

Lemma hash_not_bracket : forall s,
  Str.starts_with "#" s = true -> Str.starts_with "[" s = false.
Proof.
  intros [|c s]; unfold Str.starts_with; [discriminate|]. intros H.
  apply Ascii.eqb_eq in H. subst c. reflexivity.
Qed.

Lemma if_empty_same : forall x : string,
  (if String.eqb x EmptyString then EmptyString else x) = x.
Proof.
  intros x. destruct (String.eqb x EmptyString) eqn:E; [|reflexivity].
  apply String.eqb_eq in E. subst. reflexivity.
Qed.

Create Rewrite HintDb harvest.
Hint Rewrite set_current_comments_twice set_current_comments_same : harvest.

(** A blank line clears the accumulator and nothing else. *)
Lemma step_blank : forall st b,
  Str.trim b = EmptyString -> step st b = set_current_comments st [].
Proof. intros st b H. unfold step. rewrite H. reflexivity. Qed.

(** A comment line outside a string pushes its text. *)
Lemma step_comment_line : forall st line t,
  Str.trim line = t -> string_state st = SNone ->
  Str.starts_with "#" t = true -> detect_start t = SNone ->
  step st line = set_current_comments st (current_comments st ++ [Str.trim (Str.drop 1 t)]).
Proof.
  intros st line t Ht Hs Hh Hd. unfold step. rewrite Ht, Hs, Hd.
  assert (Hne : String.eqb t EmptyString = false)
    by (apply String.eqb_neq; eapply starts_with_nonempty; eauto).
  rewrite Hne, (hash_not_bracket t Hh). unfold step_plain. rewrite Hh.
  rewrite if_empty_same. reflexivity.
Qed.

(** A key line outside a string binds its dotted path. *)
Lemma step_key_line : forall st line t pos,
  Str.trim line = t -> string_state st = SNone -> t <> EmptyString ->
  detect_start t = SNone -> Str.starts_with "[" t = false ->
  Str.starts_with "#" t = false -> Str.find "=" t = Some pos ->
  step st line =
  mkState (insert_nonempty
             (Str.join "." (current_path st
                            ++ List.map Str.trim (Str.split "." (Str.trim (Str.take pos t)))))
             (push_opt (current_comments st) (extract_inline_comment t pos))
             (comments st))
          SNone [] (current_path st).
Proof.
  intros st line t pos Ht Hs Hne Hd Hb Hh Hp. unfold step. rewrite Ht, Hs, Hd.
  apply String.eqb_neq in Hne. rewrite Hne, Hb. unfold step_plain.
  rewrite Hh, Hp, Hne. destruct st. simpl in *. subst. reflexivity.
Qed.

(** A header line outside a string binds the header path and makes it
    the current path. *)
Lemma step_header_line : forall st line t e,
  Str.trim line = t -> string_state st = SNone -> t <> EmptyString ->
  detect_start t = SNone -> Str.starts_with "[" t = true -> Str.find "]" t = Some e ->
  step st line =
  mkState (insert_nonempty (Str.slice 1 e t)
             (push_opt (current_comments st) (extract_inline_comment t e))
             (comments st))
          SNone [] (Str.split "." (Str.slice 1 e t)).
Proof.
  intros st line t e Ht Hs Hne Hd Hb He. unfold step. rewrite Ht, Hs, Hd.
  apply String.eqb_neq in Hne. rewrite Hne, Hb, He. destruct st. simpl in *. subst.
  reflexivity.
Qed.

(** A run of comment lines outside a string appends their texts. *)
Lemma run_comment_lines : forall cs st,
  string_state st = SNone ->
  Forall (fun c => Str.starts_with "#" (Str.trim c) = true
                   /\ detect_start (Str.trim c) = SNone) cs ->
  run st cs = set_current_comments st
                (current_comments st ++ List.map (fun c => Str.trim (Str.drop 1 (Str.trim c))) cs).
Proof.
  induction cs as [|c cs IH]; intros st Hs Hall.
  - simpl. rewrite app_nil_r. autorewrite with harvest. reflexivity.
  - inversion Hall as [|? ? [Hh Hd] Hrest]; subst.
    change (run st (c :: cs)) with (run (step st c) cs).
    rewrite (step_comment_line st c (Str.trim c) eq_refl Hs Hh Hd).
    rewrite IH; [|destruct st; exact Hs|exact Hrest].
    autorewrite with harvest. simpl. rewrite <- app_assoc. reflexivity.
Qed.

End CommentSteps.

(** C5: a blank line empties the pending-comment accumulator, and
    everything the harvester records after a blank line is computed from a
    state whose accumulator is empty: no comment line above the blank line
    reaches a key or header below it. *)
Theorem blank_line_resets_accumulator :
  forall (st : Comments.state) (L1 : list string) (b : string) (L2 : list string),
    Str.trim b = EmptyString ->
    Comments.current_comments (Comments.step st b) = []
    /\ Comments.run st (L1 ++ b :: L2)
       = Comments.run (Comments.set_current_comments (Comments.run st L1) []) L2
    /\ (forall content, Str.lines content = L1 ++ b :: L2 ->
          Comments.extract_comments content
          = Comments.comments
              (Comments.run
                 (Comments.set_current_comments (Comments.run Comments.init L1) []) L2)).
Proof.
  intros st L1 b L2 Hb.
  assert (Hrun : forall st0, Comments.run st0 (L1 ++ b :: L2)
          = Comments.run (Comments.set_current_comments (Comments.run st0 L1) []) L2).
  { intros st0. rewrite CommentSteps.run_app. cbn [Comments.run fold_left].
    fold (Comments.run (Comments.step (Comments.run st0 L1) b) L2).
    rewrite CommentSteps.step_blank by exact Hb. reflexivity. }
  split; [|split].
  - rewrite CommentSteps.step_blank by exact Hb. destruct st. reflexivity.
  - apply Hrun.
  - intros content Hl. unfold Comments.extract_comments.
    destruct (String.eqb content EmptyString) eqn:E.
    + apply String.eqb_eq in E. subst content. vm_compute in Hl.
      destruct L1; discriminate.
    + rewrite Hl. rewrite Hrun. reflexivity.
Qed.

(** C7 (amended): outside multi-line strings, a run of comment lines
    followed by a key line binds the key's dotted path (current header path,
    then the trimmed dot-separated segments of the text before the first
    [=]) to the newline-joined list of: the pending lines, the text of each
    comment line with its [#] removed and then trimmed of all surrounding
    whitespace (so a bare [#] gives an empty line), and last the inline
    comment when [extract_inline_comment] finds one after the first [=];
    a header line likewise, with the inline comment after the first [].
    Nothing is recorded when that list is empty. *)
Theorem comment_string_shape :
  (forall st cs kl t pos,
     Comments.string_state st = Comments.SNone ->
     Forall (fun c => Str.starts_with "#" (Str.trim c) = true
                      /\ Comments.detect_start (Str.trim c) = Comments.SNone) cs ->
     Str.trim kl = t -> t <> EmptyString -> Comments.detect_start t = Comments.SNone ->
     Str.starts_with "[" t = false -> Str.starts_with "#" t = false ->
     Str.find "=" t = Some pos ->
     Comments.comments (Comments.run st (cs ++ [kl]))
     = Comments.insert_nonempty
         (Str.join "." (Comments.current_path st
                        ++ List.map Str.trim (Str.split "." (Str.trim (Str.take pos t)))))
         (Comments.push_opt
            (Comments.current_comments st
             ++ List.map (fun c => Str.trim (Str.drop 1 (Str.trim c))) cs)
            (Comments.extract_inline_comment t pos))
         (Comments.comments st))
  /\
  (forall st cs hl t e,
     Comments.string_state st = Comments.SNone ->
     Forall (fun c => Str.starts_with "#" (Str.trim c) = true
                      /\ Comments.detect_start (Str.trim c) = Comments.SNone) cs ->
     Str.trim hl = t -> t <> EmptyString -> Comments.detect_start t = Comments.SNone ->
     Str.starts_with "[" t = true -> Str.find "]" t = Some e ->
     Comments.comments (Comments.run st (cs ++ [hl]))
     = Comments.insert_nonempty (Str.slice 1 e t)
         (Comments.push_opt
            (Comments.current_comments st
             ++ List.map (fun c => Str.trim (Str.drop 1 (Str.trim c))) cs)
            (Comments.extract_inline_comment t e))
         (Comments.comments st)).
Proof.
  split.
  - intros st cs kl t pos Hs Hcs Ht Hne Hd Hb Hh Hp.
    rewrite CommentSteps.run_app, (CommentSteps.run_comment_lines cs st) by assumption.
    cbn [Comments.run fold_left].
    rewrite (CommentSteps.step_key_line _ kl t pos)
      by (try assumption; destruct st; exact Hs).
    destruct st. reflexivity.
  - intros st cs hl t e Hs Hcs Ht Hne Hd Hb He.
    rewrite CommentSteps.run_app, (CommentSteps.run_comment_lines cs st) by assumption.
    cbn [Comments.run fold_left].
    rewrite (CommentSteps.step_header_line _ hl t e)
      by (try assumption; destruct st; exact Hs).
    destruct st. reflexivity.
Qed.

(** C10: a [#] after the first [=] (or [])) followed only by whitespace
    gives no inline comment; a key line with such a [#] and no pending
    comment lines records nothing; [key = 1 #] alone yields an empty map,
    while a bare [#] line before [key = 1] yields [key -> ""]. *)
Theorem empty_inline_comment_dropped :
  (forall line after cp,
     Str.find "#" line = Some cp -> after < cp ->
     Str.trim (Str.drop (cp + 1) line) = EmptyString ->
     Comments.extract_inline_comment line after = None)
  /\
  (forall st line t pos cp,
     Comments.string_state st = Comments.SNone -> Comments.current_comments st = [] ->
     Str.trim line = t -> t <> EmptyString -> Comments.detect_start t = Comments.SNone ->
     Str.starts_with "[" t = false -> Str.find "=" t = Some pos ->
     Str.find "#" t = Some cp -> pos < cp -> Str.trim (Str.drop (cp + 1) t) = EmptyString ->
     Comments.comments (Comments.step st line) = Comments.comments st)
  /\ Comments.extract_comments Docs.empty_inline = []
  /\ Comments.extract_comments Docs.bare_hash_line = [("key", EmptyString)].
Proof.
  assert (Hinl : forall line after cp,
     Str.find "#" line = Some cp -> after < cp ->
     Str.trim (Str.drop (cp + 1) line) = EmptyString ->
     Comments.extract_inline_comment line after = None).
  { intros line after cp Hf Hlt Hw. unfold Comments.extract_inline_comment.
    rewrite Hf. apply Nat.ltb_lt in Hlt. rewrite Hlt, Hw. reflexivity. }
  split; [exact Hinl|]. split; [|split; vm_compute; reflexivity].
  intros st line t pos cp Hs Hc Ht Hne Hd Hb Hp Hf Hlt Hw.
  assert (Hh : Str.starts_with "#" t = false).
  { destruct (Str.starts_with "#" t) eqn:E; [|reflexivity].
    apply CommentSteps.starts_with_find in E. rewrite Hf in E. injection E as ->. lia. }
  rewrite (CommentSteps.step_key_line st line t pos) by assumption.
  rewrite (Hinl t pos cp Hf Hlt Hw), Hc. reflexivity.
Qed.

(** ** Normalization: quote runs *)
Module IdentFacts.

Lemma list_ascii_app : forall x y,
  list_ascii_of_string (x ++ y) = list_ascii_of_string x ++ list_ascii_of_string y.
Proof. induction x as [|c x IH]; intros y; simpl; [reflexivity|]. rewrite IH. reflexivity. Qed.

Lemma string_of_list_app : forall x y,
  string_of_list_ascii (x ++ y) = (string_of_list_ascii x ++ string_of_list_ascii y)%string.
Proof. induction x as [|c x IH]; intros y; simpl; [reflexivity|]. rewrite IH. reflexivity. Qed.

Lemma rev_str_involutive : forall s, Str.rev_str (Str.rev_str s) = s.
Proof.
  intros s. unfold Str.rev_str.
  rewrite list_ascii_of_string_of_list_ascii, rev_involutive.
  apply string_of_list_ascii_of_string.
Qed.

Lemma rev_str_app : forall x y,
  Str.rev_str (x ++ y) = (Str.rev_str y ++ Str.rev_str x)%string.
Proof.
  intros x y. unfold Str.rev_str. rewrite list_ascii_app, rev_app_distr.
  apply string_of_list_app.
Qed.

Lemma list_ascii_repeat : forall c n,
  list_ascii_of_string (Str.repeat_char c n) = List.repeat c n.
Proof. induction n as [|n IH]; simpl; [reflexivity|]. rewrite IH. reflexivity. Qed.

Lemma rev_str_repeat : forall c n, Str.rev_str (Str.repeat_char c n) = Str.repeat_char c n.
Proof.
  intros c n. unfold Str.rev_str. rewrite list_ascii_repeat, rev_repeat.
  rewrite <- list_ascii_repeat. apply string_of_list_ascii_of_string.
Qed.

(** [trim_start_matches] removes exactly a leading run. *)
Lemma trim_start_matches_run : forall c s,
  exists n, s = (Str.repeat_char c n ++ Str.trim_start_matches c s)%string
            /\ Str.starts_with c (Str.trim_start_matches c s) = false.
Proof.
  intros c. induction s as [|d s IH].
  - exists 0. split; reflexivity.
  - cbn [Str.trim_start_matches]. destruct (Ascii.eqb d c) eqn:E.
    + apply Ascii.eqb_eq in E. subst d. destruct IH as [n [Hn Hs]].
      exists (S n). split; [simpl; rewrite <- Hn; reflexivity | exact Hs].
    + exists 0. split; [reflexivity|]. unfold Str.starts_with.
      rewrite Ascii.eqb_sym. exact E.
Qed.

Lemma starts_with_app : forall c x y,
  x <> EmptyString -> Str.starts_with c (x ++ y) = Str.starts_with c x.
Proof. intros c [|d x] y H; [contradiction|reflexivity]. Qed.

End IdentFacts.

(** C8 (amended): [to_valid_ident] removes the whole run of leading double
    quotes and the whole run of trailing double quotes, whether or not they
    pair up; if nothing is left it returns the root sentinel, otherwise the
    rest with every [-] replaced by [_]. *)
Theorem to_valid_ident_strips_quote_runs : forall s,
  exists n m core,
    s = (Str.repeat_char Comments.dquote n ++ core ++ Str.repeat_char Comments.dquote m)%string
    /\ Str.starts_with Comments.dquote core = false
    /\ Str.ends_with Comments.dquote core = false
    /\ Utils.to_valid_ident s
       = (if String.eqb core EmptyString then Utils.ROOT else Str.replace "-" "_" core).
Proof.
  intros s. set (q := Comments.dquote).
  destruct (IdentFacts.trim_start_matches_run q s) as [n [Hn Hsn]].
  set (a := Str.trim_start_matches q s) in *.
  destruct (IdentFacts.trim_start_matches_run q (Str.rev_str a)) as [m [Hm Hsm]].
  set (x := Str.trim_start_matches q (Str.rev_str a)) in *.
  assert (Ha : a = (Str.rev_str x ++ Str.repeat_char q m)%string).
  { rewrite <- (IdentFacts.rev_str_involutive a), Hm, IdentFacts.rev_str_app.
    rewrite IdentFacts.rev_str_repeat. reflexivity. }
  exists n, m, (Str.rev_str x). split; [|split; [|split]].
  - rewrite Hn at 1. rewrite Ha. reflexivity.
  - destruct (String.eqb (Str.rev_str x) EmptyString) eqn:E.
    + apply String.eqb_eq in E. rewrite E. reflexivity.
    + apply String.eqb_neq in E. rewrite <- (IdentFacts.starts_with_app q _ (Str.repeat_char q m) E).
      rewrite <- Ha. exact Hsn.
  - unfold Str.ends_with. rewrite IdentFacts.rev_str_involutive. exact Hsm.
  - unfold Utils.to_valid_ident, Str.trim_end_matches. fold q. fold a. fold x.
    reflexivity.
Qed.

(** ** Leaf retention *)
Module LeafFacts.
Import Field.

(** The leaf test of [extract_matched_paths_from_value], as a proposition. *)
Lemma leaf_retained_spec : forall gm pats p,
  leaf_retained gm pats p = true <->
  (p = Utils.ROOT
   \/ ((inclusions pats = None
        \/ exists gs, inclusions pats = Some gs /\ Exists (fun g => gm g p = true) gs)
       /\ (exclusions pats = None
           \/ exists gs, exclusions pats = Some gs /\ Forall (fun g => gm g p = false) gs))).
Proof.
  intros gm pats p. unfold leaf_retained, globset_is_match.
  rewrite orb_true_iff, andb_true_iff, String.eqb_eq.
  destruct (inclusions pats) as [gi|]; destruct (exclusions pats) as [ge|].
  all: split; [intros [H|[Hi He]]; [left; exact H|right; split]|
               intros [H|[Hi He]]; [left; exact H|right; split]].
  all: try (left; reflexivity).
  all: try reflexivity.
  all: try (destruct Hi as [Hi|[gs [Hgs Hi]]]; [discriminate|injection Hgs as <-]).
  all: try (destruct He as [He|[gs [Hgs He]]]; [discriminate|injection Hgs as <-]).
  all: try (right; eexists; split; [reflexivity|]).
  all: try (apply existsb_exists in Hi; apply Exists_exists; exact Hi).
  all: try (apply existsb_exists; apply Exists_exists; exact Hi).
  all: try (apply negb_true_iff in He; apply Forall_forall; intros g Hg;
            destruct (gm g p) eqn:E; [|reflexivity];
            rewrite (proj2 (existsb_exists _ _) (ex_intro _ g (conj Hg E))) in He;
            discriminate).
  all: try (apply negb_true_iff; apply Bool.not_true_iff_false; intros Hx;
            apply existsb_exists in Hx; destruct Hx as [g [Hg Hgt]];
            rewrite Forall_forall in He; rewrite (He g Hg) in Hgt; discriminate).
Qed.

End LeafFacts.

(** The record built for a leaf keeps its name, value and path through
    [with_alias] and [with_toml_path]. *)
Ltac fld :=
  cbn [Field.name Field.value Field.path Field.with_toml_path Field.set_path];
  unfold Field.with_alias; destruct (String.eqb _ Utils.ROOT); reflexivity.

(** C1 (amended): a non-root leaf visited by the tree walk at raw path
    [_path] has the normalized path [p] (alias-rewritten).  It yields a
    field record exactly when [p] is the root sentinel, or (the inclusion
    set is absent or one of its globs matches [p]) and (the exclusion set is
    absent or none of its globs matches [p]), or an alias source matched
    [_path].  The record is named after the last segment of [p]; its path
    is [p] when the filter lets it through, and collapses to its name when
    only the alias retains it.  ([RootModule::build] always passes both
    sets, so with no inclusion pattern only the root-path and the aliased
    leaves are retained.) *)
Theorem leaf_retention_rule :
  forall gm pats al fields v _path idx p,
    (idx <> 0 \/ fields <> []) -> (forall t, v <> VTable t) ->
    p = Utils.to_valid_ident (Field.aliased_path _path (Field.find_alias al _path)) ->
    let filter_ok :=
      p = Utils.ROOT
      \/ ((Field.inclusions pats = None
           \/ exists gs, Field.inclusions pats = Some gs /\ Exists (fun g => gm g p = true) gs)
          /\ (Field.exclusions pats = None
              \/ exists gs, Field.exclusions pats = Some gs
                            /\ Forall (fun g => gm g p = false) gs)) in
    ((filter_ok \/ Field.find_alias al _path <> None) ->
     exists f,
       Field.extract_matched_paths_from_value gm pats al fields v _path idx = fields ++ [f]
       /\ Field.name f = Field.last_segment p /\ Field.value f = v
       /\ (filter_ok -> Field.path f = p)
       /\ (~ filter_ok -> Field.path f = Field.name f))
    /\ ((~ filter_ok /\ Field.find_alias al _path = None) ->
        Field.extract_matched_paths_from_value gm pats al fields v _path idx = fields).
Proof.
  intros gm pats al fields v _path idx p Hnr Hleaf Hp filter_ok.
  assert (Hroot : (Nat.eqb idx 0 && match fields with [] => true | _ => false end) = false).
  { destruct Hnr as [H|H]; [apply Nat.eqb_neq in H; rewrite H; reflexivity|].
    destruct fields; [contradiction|]. apply andb_false_r. }
  assert (Hunf :
    Field.extract_matched_paths_from_value gm pats al fields v _path idx =
    let alias := Field.find_alias al _path in
    let field :=
      Field.with_toml_path
        (Field.with_alias (Field.new (Field.last_segment p) p v (Some idx))
           (match match alias with
                  | Some (a, _) => if String.eqb a "*" then None else Some a
                  | None => None end with
            | Some a => a | None => Utils.ROOT end)) _path in
    let skip := negb (Field.leaf_retained gm pats p) in
    let '(field, skip) :=
      if (match alias with Some _ => true | None => false end) && skip
      then (Field.set_path field (Field.name field), false) else (field, skip) in
    if skip then fields else fields ++ [field]).
  { destruct v; [| | | | | |exfalso; eapply Hleaf; reflexivity];
    cbn [Field.extract_matched_paths_from_value]; rewrite Hroot; subst p; reflexivity. }
  rewrite Hunf. clear Hunf.
  pose proof (LeafFacts.leaf_retained_spec gm pats p) as Hspec.
  fold filter_ok in Hspec.
  split.
  - intros Hret. destruct (Field.leaf_retained gm pats p) eqn:Hl.
    + simpl. rewrite andb_false_r. eexists. split; [reflexivity|].
      split; [fld|]. split; [fld|]. split.
      * intros _. fld.
      * intros Hn. exfalso. apply Hn. apply Hspec. reflexivity.
    + assert (Hnf : ~ filter_ok) by (intros H; apply Hspec in H; discriminate).
      destruct (Field.find_alias al _path) as [[a o]|] eqn:Ha.
      * simpl. eexists. split; [reflexivity|].
        split; [fld|]. split; [fld|]. split.
        -- intros H. contradiction.
        -- intros _. reflexivity.
      * destruct Hret as [H|H]; [contradiction|]. exfalso. apply H. reflexivity.
  - intros [Hnf Ha]. rewrite Ha.
    destruct (Field.leaf_retained gm pats p) eqn:Hl.
    + exfalso. apply Hnf. apply Hspec. reflexivity.
    + reflexivity.
Qed.

Lemma leaf_retention_rule_witness :
  exists f,
    Field.extract_matched_paths_from_value Glob.is_match
      (Field.mkPatterns (Some ["a"]) (Some []) []) None [] (VInteger 1) "a" 1
    = [f] /\ Field.path f = "a".
Proof.
  destruct (proj1 (leaf_retention_rule Glob.is_match
                     (Field.mkPatterns (Some ["a"]) (Some []) []) None [] (VInteger 1)
                     "a" 1 "a" ltac:(left; discriminate) ltac:(discriminate)
                     ltac:(vm_compute; reflexivity)))
    as [f [Hf [_ [_ [Hp _]]]]].
  - left. right. split.
    + right. exists ["a"]. split; [reflexivity|]. constructor. vm_compute. reflexivity.
    + right. exists []. split; [reflexivity|]. constructor.
  - exists f. split; [exact Hf|]. apply Hp. right. split.
    + right. exists ["a"]. split; [reflexivity|]. constructor. vm_compute. reflexivity.
    + right. exists []. split; [reflexivity|]. constructor.
Defined.

(** C2: when the document can be read at none of the three locations and
    the manifest directory is set, [RootModule::new] does not fail: the
    fallback [unwrap_or_default] hands the empty text to the decoder, which
    reads it as the empty table, and a module is built from that empty
    document with no comments.  The [lib.rs] entry path, by contrast, panics
    on the same unreadable file. *)
Theorem unreadable_document_builds_empty_module :
  forall read_to_string md workspace_root parse_toml glob_match source toml_path,
    (forall q, read_to_string q = None) ->
    parse_toml EmptyString = Some (VTable []) ->
    (exists m,
        RootModule.new read_to_string (Some md) workspace_root parse_toml glob_match
          source toml_path = RootModule.Ok m
        /\ RootModule.toml m = VTable []
        /\ RootModule.src_comments (RootModule.source m) = [])
    /\ RootModule.generate_modules_read read_to_string parse_toml toml_path
       = RootModule.Panic ("Failed to read TOML at " ++ toml_path)%string.
Proof.
  intros rd md wr parse gm source p Hrd Hparse. split.
  - unfold RootModule.new. rewrite !Hrd. cbn [RootModule.unwrap_or].
    rewrite Hparse. eexists. split; [reflexivity|]. split; reflexivity.
  - unfold RootModule.generate_modules_read. rewrite Hrd. reflexivity.
Qed.

Lemma unreadable_document_builds_empty_module_witness :
  exists m,
    RootModule.new (fun _ => None) (Some "/crate") "/ws"
      (fun s => if String.eqb s EmptyString then Some (VTable []) else None)
      Glob.is_match Docs.select_a "missing.toml" = RootModule.Ok m
    /\ RootModule.toml m = VTable [].
Proof.
  destruct (proj1 (unreadable_document_builds_empty_module (fun _ => None) "/crate" "/ws"
                     (fun s => if String.eqb s EmptyString then Some (VTable []) else None)
                     Glob.is_match Docs.select_a "missing.toml"
                     (fun _ => eq_refl) eq_refl)) as [m [Hm [Ht _]]].
  exists m. split; assumption.
Defined.

(** ** The field walk and the steps of [TomlFields::build] *)
Module BuildFacts.
Import Analysis.

Lemma Value_nested_ind (P : Value -> Prop)
  (Hs : forall s, P (VString s)) (Hi : forall i, P (VInteger i))
  (Hf : forall b, P (VFloat b)) (Hb : forall b, P (VBoolean b))
  (Hd : forall d, P (VDatetime d))
  (Ha : forall l, Forall P l -> P (VArray l))
  (Ht : forall t, Forall (fun kv => P (snd kv)) t -> P (VTable t)) :
  forall v, P v.
Proof.
  fix F 1. intros v. destruct v.
  - apply Hs.
  - apply Hi.
  - apply Hf.
  - apply Hb.
  - apply Hd.
  - apply Ha. exact ((fix G (l : list Value) : Forall P l :=
                        match l with
                        | [] => Forall_nil _
                        | x :: l' => Forall_cons x (F x) (G l')
                        end) arr).
  - apply Ht. exact ((fix G (l : list (string * Value)) : Forall (fun kv => P (snd kv)) l :=
                        match l with
                        | [] => Forall_nil _
                        | (k, w) :: l' => Forall_cons (k, w) (F w) (G l')
                        end) t).
Qed.


(** The walk over a table's entries only appends to the list it starts
    from, provided each entry's walk does. *)
Ltac go_appends gm pats al Hgo :=
  match goal with |- context[?go (?fsx ++ [?Fx]) ?tx] =>
    assert (Hgo : forall t0 fs0,
      Forall (fun kv => forall fs p idx, exists ext,
        Field.extract_matched_paths_from_value gm pats al fs (snd kv) p idx = fs ++ ext
        /\ Forall RN ext) t0 ->
      exists ext, go fs0 t0 = fs0 ++ ext /\ Forall RN ext);
    [ let t0 := fresh "t0" in let k := fresh "k" in let w := fresh "w" in
      let IH := fresh "IH" in let fs0 := fresh "fs0" in let Hall := fresh "Hall" in
      intros t0; induction t0 as [|[k w] t0 IH]; intros fs0 Hall;
      [ exists []; rewrite app_nil_r; split; [reflexivity|constructor]
      | let Hw := fresh "Hw" in let Hrest := fresh "Hrest" in
        inversion Hall as [|? ? Hw Hrest]; subst; cbn [snd] in Hw; cbn beta iota;
        match goal with
        | |- context[Field.extract_matched_paths_from_value _ _ _ ?a _ ?b ?c] =>
            let e1 := fresh "e1" in let He1 := fresh "He1" in let Hr1 := fresh "Hr1" in
            destruct (Hw a b c) as [e1 [He1 Hr1]]; rewrite He1;
            let e2 := fresh "e2" in let He2 := fresh "He2" in let Hr2 := fresh "Hr2" in
            destruct (IH (fs0 ++ e1) Hrest) as [e2 [He2 Hr2]]; rewrite He2;
            exists (e1 ++ e2); split;
            [rewrite app_assoc; reflexivity | apply Forall_app; split; assumption]
        end ]
    | ]
  end.

Lemma extract_appends gm pats al :
  forall v fs p idx, exists ext,
    Field.extract_matched_paths_from_value gm pats al fs v p idx = fs ++ ext
    /\ Forall RN ext.
Proof.
  induction v as [s|i|b|b|d|l _|t Ht] using Value_nested_ind; intros fs p idx;
  cbn [Field.extract_matched_paths_from_value]; unfold Field.with_alias;
  repeat (match goal with |- context[if ?b then _ else _] => destruct b end; cbn beta iota zeta).
  all: try solve [exists []; rewrite app_nil_r; split; [reflexivity|constructor]
                | eexists; split; [reflexivity| constructor; [reflexivity|constructor]]].
  all: go_appends gm pats al Hgo;
    match goal with |- exists ext, _ (?fs ++ [?F]) ?t = _ /\ _ =>
      destruct (Hgo t (fs ++ [F]) Ht) as [e [He Hr]]; rewrite He;
      exists ([F] ++ e); split;
      [rewrite app_assoc; reflexivity | constructor; [reflexivity|exact Hr]]
    end.
Qed.

Lemma extract_root_head gm pats al t :
  exists ext,
    Field.extract_matched_paths_from_value gm pats al [] (VTable t) Utils.ROOT 0
    = Field.root (VTable t) :: ext.
Proof.
  cbn [Field.extract_matched_paths_from_value Nat.eqb andb]. cbn beta iota zeta.
  go_appends gm pats al Hgo.
  destruct (Hgo t ([] ++ [Field.root (VTable t)]) (proj2 (Forall_forall _ t) (fun kv _ => extract_appends gm pats al (snd kv))))
    as [e [He _]].
  rewrite He. exists e. reflexivity.
Qed.


(** Field-wise invariants kept by the last three steps of [build]. *)
Lemma update_first_Forall (Q : Field.TomlField -> Prop) p g :
  (forall f, Q f -> Q (g f)) ->
  forall l, Forall Q l -> Forall Q (Field.update_first p g l).
Proof.
  intros Hg l Hl. induction Hl as [|x l Hx Hl IH]; cbn [Field.update_first]; [constructor|].
  destruct (p x); constructor; auto.
Qed.

Lemma attach_aliases_Forall (Q : Field.TomlField -> Prop) al l :
  (forall f a, Q f -> Q (Field.set_alias f a)) ->
  Forall Q l -> Forall Q (Field.attach_aliases al l).
Proof.
  intros Hq. unfold Field.attach_aliases.
  generalize (match al with Some al => al | None => [] end) as xs.
  intros xs. revert l. induction xs as [|[a o] xs IH]; intros l Hl; [exact Hl|].
  cbn [fold_left]. apply IH. apply update_first_Forall; [|exact Hl].
  intros f Hf. apply Hq, Hf.
Qed.

Lemma attach_comments_Forall (Q : Field.TomlField -> Prop) cm l :
  (forall f c, Q f -> Q (Field.set_comment f c)) ->
  Forall Q l -> Forall Q (Field.attach_comments cm l).
Proof.
  intros Hq Hl. unfold Field.attach_comments. apply Forall_map.
  eapply Forall_impl; [|exact Hl]. intros f Hf.
  destruct (Field.lookup_comment cm f); [apply Hq|]; exact Hf.
Qed.


Lemma attach_relative_paths_ok lits l :
  Forall RN l -> Forall (rel_ok lits) (Field.attach_relative_paths lits l).
Proof.
  intros Hl. unfold Field.attach_relative_paths. apply Forall_map.
  eapply Forall_impl; [|exact Hl]. intros f Hf. unfold rel_ok.
  destruct (Field.get_relative_path lits (Field.path f)) eqn:E; cbn.
  - rewrite E. reflexivity.
  - rewrite E. exact Hf.
Qed.

Lemma build_rel_ok gm pats al cm v :
  Forall (rel_ok (Field.literals pats)) (Field.build gm pats al cm v).
Proof.
  unfold Field.build.
  destruct (extract_appends gm pats al v [] Utils.ROOT 0) as [ext [He Hr]].
  rewrite He. cbn [app].
  apply attach_comments_Forall; [intros f c Hf; exact Hf|].
  apply attach_aliases_Forall; [intros f a Hf; exact Hf|].
  apply attach_relative_paths_ok, Hr.
Qed.



Lemma get_relative_path_from_fold best lits path :
  Field.get_relative_path_from best lits path
  = fold_left min_step (candidates lits path) best.
Proof.
  revert best. induction lits as [|pat lits IH]; intros best; [reflexivity|].
  cbn [Field.get_relative_path_from]. unfold candidates. cbn [filter].
  destruct (Str.starts_with "!" pat); cbn [negb map fold_left]; rewrite IH; reflexivity.
Qed.

Lemma fold_min_some cs b :
  (fold_left min_step cs (Some b) = Some b
   /\ Forall (fun c => String.length b <= String.length c) cs)
  \/ (exists x pre post,
        fold_left min_step cs (Some b) = Some x /\ cs = pre ++ x :: post
        /\ String.length x < String.length b
        /\ Forall (fun c => String.length x < String.length c) pre
        /\ Forall (fun c => String.length x <= String.length c) post).
Proof.
  revert b. induction cs as [|c cs IH]; intros b; [left; split; [reflexivity|constructor]|].
  cbn [fold_left min_step]. destruct (Nat.ltb (String.length c) (String.length b)) eqn:Hlt.
  - apply Nat.ltb_lt in Hlt. right.
    destruct (IH c) as [[H1 H2]|[x [pre [post [H1 [H2 [H3 [H4 H5]]]]]]]].
    + exists c, [], cs. repeat split; auto.
    + exists x, (c :: pre), post.
      split; [exact H1|]. split; [rewrite H2; reflexivity|]. split; [lia|]. split; [|exact H5].
      constructor; [lia|exact H4].
  - apply Nat.ltb_ge in Hlt.
    destruct (IH b) as [[H1 H2]|[x [pre [post [H1 [H2 [H3 [H4 H5]]]]]]]].
    + left. split; [exact H1|]. constructor; [lia|exact H2].
    + right. exists x, (c :: pre), post.
      split; [exact H1|]. split; [rewrite H2; reflexivity|]. split; [lia|]. split; [|exact H5].
      constructor; [lia|exact H4].
Qed.

Lemma fold_min_none cs :
  (cs = [] -> fold_left min_step cs None = None)
  /\ (cs <> [] -> exists r pre post,
        fold_left min_step cs None = Some r /\ cs = pre ++ r :: post
        /\ Forall (fun c => String.length r < String.length c) pre
        /\ Forall (fun c => String.length r <= String.length c) post).
Proof.
  split; [intros ->; reflexivity|]. intros Hne.
  destruct cs as [|c cs]; [contradiction|]. cbn [fold_left min_step].
  destruct (fold_min_some cs c) as [[H1 H2]|[x [pre [post [H1 [H2 [H3 [H4 H5]]]]]]]].
  - exists c, [], cs. repeat split; auto.
  - exists x, (c :: pre), post.
    split; [exact H1|]. split; [rewrite H2; reflexivity|]. split; [|exact H5].
    constructor; [lia|exact H4].
Qed.

End BuildFacts.


(** C3 (counterexample): in the document [a."" = 1] selected by [*], the
    leaf has path [a.] (the segments [a] and the empty one).  Dropping the
    segments found in the pattern's list [*] leaves [a.], but the recorded
    relative path is [a]: the empty segment is dropped too. *)
Lemma relative_path_drops_empty_segment :
  exists f, In f (Docs.built Docs.select_star Docs.empty_leaf_doc)
            /\ Field.path f = "a." /\ Field.relative_path f = Some "a"
            /\ Analysis.spec_rel_candidate "*" "a." = "a.".
Proof.
  eexists. split; [vm_compute; right; right; left; reflexivity|].
  split; [reflexivity|]. split; [reflexivity|]. vm_compute. reflexivity.
Qed.

(** C3 (amended): every field of a built collection has as relative path
    the shortest of its candidates, one per non-negated literal pattern in
    pattern order, the earliest one among equally short candidates; a
    candidate is the field's path with its empty segments and the segments
    of the pattern's segment list removed, joined by dots.  With no
    non-negated literal the field has no relative path. *)
Theorem relative_path_shortest_candidate :
  forall gm pats al cm v f,
    In f (Field.build gm pats al cm v) ->
    let cands := Analysis.candidates (Field.literals pats) (Field.path f) in
    (cands = [] -> Field.relative_path f = None)
    /\ (cands <> [] ->
        exists r pre post,
          Field.relative_path f = Some r /\ cands = pre ++ r :: post
          /\ Forall (fun c => String.length r < String.length c) pre
          /\ Forall (fun c => String.length r <= String.length c) post).
Proof.
  intros gm pats al cm v f Hin cands.
  pose proof (BuildFacts.build_rel_ok gm pats al cm v) as Hok.
  rewrite Forall_forall in Hok. specialize (Hok f Hin). unfold Analysis.rel_ok in Hok.
  rewrite Hok. unfold Field.get_relative_path.
  rewrite BuildFacts.get_relative_path_from_fold. apply BuildFacts.fold_min_none.
Qed.

Lemma relative_path_shortest_candidate_witness :
  let fs := Field.build Glob.is_match (RootModule.build_patterns Docs.select_star)
              (Some []) (Some []) Docs.empty_leaf_doc in
  exists f r, In f fs /\ Field.relative_path f = Some r
              /\ In r (Analysis.candidates (Field.literals
                          (RootModule.build_patterns Docs.select_star)) (Field.path f)).
Proof.
  intros fs. exists (nth 2 fs (Field.root (VInteger 0))).
  assert (Hin : In (nth 2 fs (Field.root (VInteger 0))) fs)
    by (apply nth_In; vm_compute; lia).
  destruct (proj2 (relative_path_shortest_candidate Glob.is_match
                     (RootModule.build_patterns Docs.select_star) (Some []) (Some [])
                     Docs.empty_leaf_doc _ Hin) ltac:(vm_compute; discriminate))
    as [r [pre [post [Hr [Hc _]]]]].
  exists r. split; [exact Hin|]. split; [exact Hr|]. rewrite Hc. apply in_elt.
Defined.

(** C4 (code bug): the parent lookup of [get_relative_parent_of_field]
    goes by name alone, so the parent it promises need not be found.  In
    the document [{"p.q" = {}}] no field is named [p]: the lookup for the
    table under the key [p.q] fails, and [get_relative_children_of] on the
    root and [generate_modules] panic with "Expected a valid relative
    parent field".  In the document with tables [a.x.y] and [b.x.y] two
    fields are named [x]: the parent of [b.x.y] (whose tree parent is
    [b.x]) resolves to [a.x], so [a.x] gets both [y] tables as children and
    [b.x] gets none. *)
Theorem relative_parent_lookup_bug :
  (let fs := Docs.built Docs.select_none Docs.dotted_key_doc in
   (exists f, In f fs /\ Field.path f = "p.q" /\
              Field.get_relative_parent_of_field fs f = None)
   /\ FieldNav.get_relative_children_of fs 0
      = RootModule.Panic "Expected a valid relative parent field"
   /\ forall dbg disp vi n,
        FieldNav.generate_modules dbg disp vi (S n) fs
        = Some (RootModule.Panic "Expected a valid relative parent field"))
  /\
  (let fs := Docs.built Docs.select_none Docs.twin_doc in
   exists ax bx bxy,
     nth_error fs 2 = Some ax /\ Field.path ax = "a.x" /\
     nth_error fs 5 = Some bx /\ Field.path bx = "b.x" /\
     nth_error fs 6 = Some bxy /\ Field.path bxy = "b.x.y" /\
     Field.parent bxy = Some 5 /\
     Field.get_relative_parent_of_field fs bxy = Some ax /\
     option_map (map Field.path) (match FieldNav.get_relative_children_of fs 2 with
                                  | RootModule.Ok l => Some l | _ => None end)
       = Some ["a.x.y"; "b.x.y"] /\
     FieldNav.get_relative_children_of fs 5 = RootModule.Ok []).
Proof.
  split.
  - cbv zeta.
    assert (Hc : FieldNav.get_relative_children_of (Docs.built Docs.select_none Docs.dotted_key_doc) 0
                 = RootModule.Panic "Expected a valid relative parent field")
      by (vm_compute; reflexivity).
    split; [|split; [exact Hc|]].
    + eexists. split; [vm_compute; right; left; reflexivity|]. split; reflexivity.
    + intros dbg disp vi n. unfold FieldNav.generate_modules. cbn [FieldNav.generate_module].
      rewrite Hc. vm_compute. reflexivity.
  - cbv zeta. do 3 eexists.
    split; [vm_compute; reflexivity|]. split; [reflexivity|].
    split; [vm_compute; reflexivity|]. split; [reflexivity|].
    split; [vm_compute; reflexivity|]. split; [reflexivity|].
    split; [reflexivity|].
    split; [vm_compute; reflexivity|].
    split; vm_compute; reflexivity.
Qed.

Lemma blank_line_resets_accumulator_witness :
  Comments.current_comments (Comments.step Comments.init "  ") = []
  /\ Comments.extract_comments ("# c" ++ Docs.nls ++ Docs.nls ++ "k = 1" ++ Docs.nls)%string
     = Comments.comments
         (Comments.run (Comments.set_current_comments (Comments.run Comments.init ["# c"]) [])
            ["k = 1"]).
Proof.
  split.
  - exact (proj1 (blank_line_resets_accumulator Comments.init [] "  " []
                    ltac:(vm_compute; reflexivity))).
  - apply (proj2 (proj2 (blank_line_resets_accumulator Comments.init ["# c"] EmptyString
                           ["k = 1"] ltac:(vm_compute; reflexivity)))).
    vm_compute. reflexivity.
Defined.

Lemma comment_string_shape_witness :
  Comments.comments (Comments.run Comments.init (["# a"] ++ ["k = 1"]))
  = Comments.insert_nonempty
      (Str.join "." ([] ++ List.map Str.trim (Str.split "." (Str.trim (Str.take 2 "k = 1")))))
      (Comments.push_opt
         ([] ++ List.map (fun c => Str.trim (Str.drop 1 (Str.trim c))) ["# a"])
         (Comments.extract_inline_comment "k = 1" 2))
      (Comments.comments Comments.init).
Proof.
  apply (proj1 comment_string_shape Comments.init ["# a"] "k = 1" "k = 1" 2).
  - reflexivity.
  - constructor; [split; vm_compute; reflexivity|constructor].
  - vm_compute. reflexivity.
  - discriminate.
  - vm_compute. reflexivity.
  - vm_compute. reflexivity.
  - vm_compute. reflexivity.
  - vm_compute. reflexivity.
Defined.


Lemma empty_inline_comment_dropped_witness :
  Comments.extract_inline_comment "k = 1 #" 2 = None.
Proof.
  apply (proj1 empty_inline_comment_dropped "k = 1 #" 2 6).
  - vm_compute. reflexivity.
  - lia.
  - vm_compute. reflexivity.
Defined.

(** * Further properties of the source *)

(** ** Identifier normalization *)
Module UtilsFacts.

Lemma replace_list : forall a b s,
  list_ascii_of_string (Str.replace a b s)
  = List.map (fun c => if Ascii.eqb c a then b else c) (list_ascii_of_string s).
Proof. intros a b s. induction s as [|c s IH]; simpl; [reflexivity|]. rewrite IH. reflexivity. Qed.

Lemma replace_of_list : forall a b l,
  Str.replace a b (string_of_list_ascii l)
  = string_of_list_ascii (List.map (fun c => if Ascii.eqb c a then b else c) l).
Proof. intros a b l. induction l as [|c l IH]; simpl; [reflexivity|]. rewrite IH. reflexivity. Qed.

Lemma rev_str_replace : forall a b s,
  Str.rev_str (Str.replace a b s) = Str.replace a b (Str.rev_str s).
Proof.
  intros a b s. unfold Str.rev_str. rewrite replace_list, replace_of_list, map_rev.
  reflexivity.
Qed.

Lemma starts_with_replace : forall q a b s,
  Ascii.eqb q a = false -> Ascii.eqb q b = false ->
  Str.starts_with q (Str.replace a b s) = Str.starts_with q s.
Proof.
  intros q a b [|c s] Ha Hb; [reflexivity|]. unfold Str.starts_with. cbn [Str.replace].
  destruct (Ascii.eqb c a) eqn:E; [|reflexivity].
  apply Ascii.eqb_eq in E. subst c. rewrite Ha, Hb. reflexivity.
Qed.

Lemma ends_with_replace : forall q a b s,
  Ascii.eqb q a = false -> Ascii.eqb q b = false ->
  Str.ends_with q (Str.replace a b s) = Str.ends_with q s.
Proof.
  intros q a b s Ha Hb. unfold Str.ends_with. rewrite rev_str_replace.
  apply starts_with_replace; assumption.
Qed.

Lemma replace_idem : forall a b s,
  Str.replace a b (Str.replace a b s) = Str.replace a b s.
Proof.
  intros a b s. induction s as [|c s IH]; cbn [Str.replace]; [reflexivity|]. rewrite IH.
  destruct (Ascii.eqb c a) eqn:E; [|rewrite E; reflexivity].
  destruct (Ascii.eqb b a) eqn:F; [apply Ascii.eqb_eq in F; apply Ascii.eqb_eq in E; subst; reflexivity|].
  reflexivity.
Qed.

Lemma find_replace : forall a b s,
  Ascii.eqb a b = false -> Str.find a (Str.replace a b s) = None.
Proof.
  intros a b s H. induction s as [|c s IH]; cbn [Str.replace Str.find]; [reflexivity|].
  rewrite IH. destruct (Ascii.eqb c a) eqn:E.
  - rewrite H. reflexivity.
  - rewrite Ascii.eqb_sym, E. reflexivity.
Qed.

Lemma replace_nonempty : forall a b s,
  s <> EmptyString -> Str.replace a b s <> EmptyString.
Proof. intros a b [|c s] H; [contradiction|discriminate]. Qed.

Lemma trim_start_matches_clean : forall q s,
  Str.starts_with q s = false -> Str.trim_start_matches q s = s.
Proof.
  intros q [|c s] H; [reflexivity|]. unfold Str.starts_with in H. cbn [Str.trim_start_matches].
  rewrite Ascii.eqb_sym, H. reflexivity.
Qed.

Lemma trim_end_matches_clean : forall q s,
  Str.ends_with q s = false -> Str.trim_end_matches q s = s.
Proof.
  intros q s H. unfold Str.trim_end_matches. unfold Str.ends_with in H.
  rewrite (trim_start_matches_clean q _ H). apply IdentFacts.rev_str_involutive.
Qed.

(** [to_valid_ident] keeps a core that neither starts nor ends with a
    double quote. *)
Lemma to_valid_ident_core : forall s, exists core,
  Str.starts_with Comments.dquote core = false
  /\ Str.ends_with Comments.dquote core = false
  /\ Utils.to_valid_ident s
     = (if String.eqb core EmptyString then Utils.ROOT else Str.replace "-" "_" core).
Proof.
  intros s. set (q := Comments.dquote).
  destruct (IdentFacts.trim_start_matches_run q s) as [n [Hn Hsn]].
  set (a := Str.trim_start_matches q s) in *.
  destruct (IdentFacts.trim_start_matches_run q (Str.rev_str a)) as [m [Hm Hsm]].
  set (x := Str.trim_start_matches q (Str.rev_str a)) in *.
  assert (Ha : a = (Str.rev_str x ++ Str.repeat_char q m)%string).
  { rewrite <- (IdentFacts.rev_str_involutive a), Hm, IdentFacts.rev_str_app.
    rewrite IdentFacts.rev_str_repeat. reflexivity. }
  exists (Str.rev_str x). split; [|split].
  - destruct (String.eqb (Str.rev_str x) EmptyString) eqn:E.
    + apply String.eqb_eq in E. rewrite E. reflexivity.
    + apply String.eqb_neq in E.
      rewrite <- (IdentFacts.starts_with_app q _ (Str.repeat_char q m) E).
      rewrite <- Ha. exact Hsn.
  - unfold Str.ends_with. rewrite IdentFacts.rev_str_involutive. exact Hsm.
  - unfold Utils.to_valid_ident, Str.trim_end_matches. fold q. fold a. fold x.
    reflexivity.
Qed.

Lemma replace_back : forall a b s,
  Str.find b s = None -> Str.replace b a (Str.replace a b s) = s.
Proof.
  intros a b s. induction s as [|c s IH]; intros H; [reflexivity|].
  cbn [Str.find] in H. destruct (Ascii.eqb b c) eqn:Hbc; [discriminate|].
  destruct (Str.find b s); [discriminate|].
  cbn [Str.replace]. rewrite (IH eq_refl). f_equal.
  destruct (Ascii.eqb c a) eqn:Hca.
  - apply Ascii.eqb_eq in Hca. subst c. rewrite Ascii.eqb_refl. reflexivity.
  - rewrite Ascii.eqb_sym, Hbc. reflexivity.
Qed.

End UtilsFacts.

(** [to_valid_ident] yields a string without a dash that neither starts nor
    ends with a double quote. *)
Theorem to_valid_ident_clean : forall s,
  Str.find "-" (Utils.to_valid_ident s) = None
  /\ Str.starts_with Comments.dquote (Utils.to_valid_ident s) = false
  /\ Str.ends_with Comments.dquote (Utils.to_valid_ident s) = false.
Proof.
  intros s. destruct (UtilsFacts.to_valid_ident_core s) as [core [Hs [He ->]]].
  destruct (String.eqb core EmptyString); [split; [|split]; reflexivity|].
  split; [apply UtilsFacts.find_replace; reflexivity|].
  split; [rewrite UtilsFacts.starts_with_replace by reflexivity; exact Hs|].
  rewrite UtilsFacts.ends_with_replace by reflexivity. exact He.
Qed.

(** Normalizing an identifier twice is normalizing it once. *)
Theorem to_valid_ident_idempotent : forall s,
  Utils.to_valid_ident (Utils.to_valid_ident s) = Utils.to_valid_ident s.
Proof.
  intros s. destruct (UtilsFacts.to_valid_ident_core s) as [core [Hs [He ->]]].
  destruct (String.eqb core EmptyString) eqn:E; [reflexivity|].
  apply String.eqb_neq in E.
  unfold Utils.to_valid_ident.
  rewrite UtilsFacts.trim_start_matches_clean
    by (rewrite UtilsFacts.starts_with_replace by reflexivity; exact Hs).
  rewrite UtilsFacts.trim_end_matches_clean
    by (rewrite UtilsFacts.ends_with_replace by reflexivity; exact He).
  destruct (String.eqb (Str.replace "-" "_" core) EmptyString) eqn:F.
  - apply String.eqb_eq in F. exfalso. exact (UtilsFacts.replace_nonempty _ _ _ E F).
  - unfold Utils.kebab_to_snake. apply UtilsFacts.replace_idem.
Qed.

(** [snake_to_kebab] undoes [kebab_to_snake] on a string without an
    underscore, and [kebab_to_snake] undoes [snake_to_kebab] on a string
    without a dash. *)
Theorem kebab_snake_round_trip : forall s,
  (Str.find "_" s = None -> Utils.snake_to_kebab (Utils.kebab_to_snake s) = s)
  /\ (Str.find "-" s = None -> Utils.kebab_to_snake (Utils.snake_to_kebab s) = s).
Proof.
  intros s. unfold Utils.snake_to_kebab, Utils.kebab_to_snake.
  split; apply UtilsFacts.replace_back.
Qed.

Lemma kebab_snake_round_trip_witness :
  Utils.snake_to_kebab (Utils.kebab_to_snake "rust-version") = "rust-version"
  /\ Utils.kebab_to_snake (Utils.snake_to_kebab "edition_2021") = "edition_2021".
Proof.
  split.
  - apply (proj1 (kebab_snake_round_trip "rust-version")). reflexivity.
  - apply (proj2 (kebab_snake_round_trip "edition_2021")). reflexivity.
Defined.

(** ** The comment harvester on text without [#] *)
Module HashFacts.
Import Comments Analysis.

Lemma find_none_iff : forall c s, Str.find c s = None <-> ~ In c (chars s).
Proof.
  intros c s. induction s as [|d s IH]; cbn [Str.find chars list_ascii_of_string].
  - split; [intros _ []|reflexivity].
  - destruct (Ascii.eqb c d) eqn:E.
    + apply Ascii.eqb_eq in E. subst d. split; [discriminate|]. intros H. exfalso. apply H. left. reflexivity.
    + split.
      * destruct (Str.find c s) eqn:F; [discriminate|]. intros _ [Hd|Hin].
        -- subst d. rewrite Ascii.eqb_refl in E. discriminate.
        -- apply (proj1 IH eq_refl Hin).
      * intros H. rewrite (proj2 IH (fun Hin => H (or_intror Hin))). reflexivity.
Qed.

Lemma rev_chars : forall s, chars (Str.rev_str s) = rev (chars s).
Proof. intros s. unfold chars, Str.rev_str. apply list_ascii_of_string_of_list_ascii. Qed.

Lemma trim_start_incl : forall s, incl (chars (Str.trim_start s)) (chars s).
Proof.
  induction s as [|c s IH]; cbn [Str.trim_start]; [apply incl_refl|].
  destruct (Str.is_ws c); [|apply incl_refl]. apply incl_tl, IH.
Qed.

Lemma trim_incl : forall s, incl (chars (Str.trim s)) (chars s).
Proof.
  intros s x Hx. unfold Str.trim, Str.trim_end in Hx. rewrite rev_chars in Hx.
  apply in_rev in Hx. apply trim_start_incl in Hx. rewrite rev_chars in Hx.
  apply in_rev in Hx. apply trim_start_incl in Hx. exact Hx.
Qed.

Lemma take_incl : forall n s, incl (chars (Str.take n s)) (chars s).
Proof.
  intros n s. revert n. induction s as [|c s IH]; intros [|n]; cbn [Str.take];
    try apply incl_nil_l.
  cbn [chars list_ascii_of_string]. apply incl_cons; [left; reflexivity|].
  apply incl_tl, IH.
Qed.

Lemma split_incl : forall c s p, In p (Str.split c s) -> incl (chars p) (chars s).
Proof.
  intros c s. induction s as [|d s IH]; intros p Hp; cbn [Str.split] in Hp.
  - destruct Hp as [<-|[]]. apply incl_refl.
  - destruct (Ascii.eqb c d).
    + destruct Hp as [<-|Hp]; [apply incl_nil_l|]. apply incl_tl, IH, Hp.
    + destruct (Str.split c s) as [|w ws] eqn:E.
      * destruct Hp as [<-|[]]. cbn. intros x [<-|[]]. left. reflexivity.
      * destruct Hp as [<-|Hp].
        -- cbn [chars list_ascii_of_string]. apply incl_cons; [left; reflexivity|].
           apply incl_tl, IH. left. reflexivity.
        -- apply incl_tl, IH. right. exact Hp.
Qed.

Lemma strip_cr_incl : forall p, incl (chars (Str.strip_cr p)) (chars p).
Proof.
  intros p. unfold Str.strip_cr.
  destruct (String.get (String.length p - 1) p); [|apply incl_refl].
  destruct (Ascii.eqb a Str.cr); [apply take_incl|apply incl_refl].
Qed.

Lemma lines_of_incl : forall ps l, In l (Str.lines_of ps) ->
  exists p, In p ps /\ incl (chars l) (chars p).
Proof.
  induction ps as [|p ps IH]; intros l Hl; [destruct Hl|].
  destruct ps as [|p2 ps2].
  - cbn [Str.lines_of] in Hl. destruct (String.eqb p EmptyString); [destruct Hl|].
    destruct Hl as [<-|[]]. exists p. split; [left; reflexivity|apply incl_refl].
  - change (Str.lines_of (p :: p2 :: ps2)) with (Str.strip_cr p :: Str.lines_of (p2 :: ps2)) in Hl.
    destruct Hl as [<-|Hl].
    + exists p. split; [left; reflexivity|apply strip_cr_incl].
    + destruct (IH l Hl) as [q [Hq Hi]]. exists q. split; [right; exact Hq|exact Hi].
Qed.

Lemma lines_incl : forall s l, In l (Str.lines s) -> incl (chars l) (chars s).
Proof.
  intros s l Hl. destruct (lines_of_incl _ _ Hl) as [p [Hp Hi]].
  eapply incl_tran; [exact Hi|]. eapply split_incl. exact Hp.
Qed.

Lemma step_no_hash : forall st line,
  Str.find "#" line = None -> comments st = [] -> current_comments st = [] ->
  comments (step st line) = [] /\ current_comments (step st line) = [].
Proof.
  intros st line Hl Hc Hcc.
  assert (Ht : Str.find "#" (Str.trim line) = None).
  { apply find_none_iff. intros Hin. apply (proj1 (find_none_iff _ _) Hl).
    apply trim_incl, Hin. }
  assert (Hinl : forall p, extract_inline_comment (Str.trim line) p = None)
    by (intros p; unfold extract_inline_comment; rewrite Ht; reflexivity).
  unfold step. set (t := Str.trim line) in *.
  destruct (String.eqb t EmptyString); [split; [exact Hc|reflexivity]|].
  destruct (string_state st).
  - destruct (detect_start t); [|split; assumption|split; assumption].
    destruct (if Str.starts_with "[" t then Str.find "]" t else None) as [se|].
    + cbn [comments current_comments]. rewrite Hcc, Hinl, Hc. split; reflexivity.
    + unfold step_plain.
      destruct (Str.starts_with "#" t) eqn:Hh.
      { rewrite (CommentSteps.starts_with_find _ _ Hh) in Ht. discriminate. }
      destruct (Str.find "=" t); [destruct (negb (String.eqb t EmptyString))|].
      * cbn [comments current_comments set_current_comments set_comments].
        rewrite Hcc, Hinl, Hc. split; reflexivity.
      * split; assumption.
      * cbn [negb]. split; [exact Hc|reflexivity].
  - destruct (Str.contains sq3 t); split; assumption.
  - destruct (Str.contains dq3 t); split; assumption.
Qed.

Lemma run_no_hash : forall L st,
  (forall l, In l L -> Str.find "#" l = None) ->
  comments st = [] -> current_comments st = [] ->
  comments (run st L) = [].
Proof.
  induction L as [|l L IH]; intros st HL Hc Hcc; [exact Hc|].
  change (run st (l :: L)) with (run (step st l) L).
  destruct (step_no_hash st l (HL l (or_introl eq_refl)) Hc Hcc) as [H1 H2].
  apply IH; [intros x Hx; apply HL; right; exact Hx|exact H1|exact H2].
Qed.

End HashFacts.

(** Text without a [#] yields no comment entry at all. *)
Theorem extract_comments_without_hash : forall content,
  Str.find "#" content = None -> Comments.extract_comments content = [].
Proof.
  intros content H. unfold Comments.extract_comments.
  destruct (String.eqb content EmptyString); [reflexivity|].
  apply HashFacts.run_no_hash; [|reflexivity|reflexivity].
  intros l Hl. apply HashFacts.find_none_iff. intros Hin.
  apply (proj1 (HashFacts.find_none_iff _ _) H). eapply HashFacts.lines_incl; eauto.
Qed.

Lemma extract_comments_without_hash_witness :
  Comments.extract_comments
    ("[package]" ++ Docs.nls ++ "name = 1" ++ Docs.nls ++ "x = [1]" ++ Docs.nls)%string = [].
Proof. apply extract_comments_without_hash. vm_compute. reflexivity. Defined.

(** ** Multi-line string state of the comment harvester *)
Module StringStateFacts.
Import Comments Analysis.

Lemma step_in_string : forall st x s,
  s <> SNone -> string_state st = s -> Str.contains (closing s) (Str.trim x) = false ->
  comments (step st x) = comments st /\ string_state (step st x) = s.
Proof.
  intros st x s Hs Hst Hx. unfold step.
  destruct (String.eqb (Str.trim x) EmptyString); [split; [reflexivity|exact Hst]|].
  rewrite Hst. destruct s; [contradiction| |]; cbn [closing] in Hx; rewrite Hx;
  split; [reflexivity|exact Hst|reflexivity|exact Hst].
Qed.

Lemma run_in_string : forall L st s,
  s <> SNone -> string_state st = s ->
  Forall (fun x => Str.contains (closing s) (Str.trim x) = false) L ->
  comments (run st L) = comments st /\ string_state (run st L) = s.
Proof.
  induction L as [|x L IH]; intros st s Hs Hst HL; [split; [reflexivity|exact Hst]|].
  inversion HL as [|? ? Hx HL']; subst.
  change (run st (x :: L)) with (run (step st x) L).
  destruct (step_in_string st x (string_state st) Hs eq_refl Hx) as [H1 H2].
  destruct (IH (step st x) (string_state st) Hs H2 HL') as [H3 H4].
  split; [rewrite H3; exact H1|exact H4].
Qed.

End StringStateFacts.

(** A line outside a string whose trimmed text contains three double
    quotes (and not six) or three single quotes (and not six) switches the
    harvester into a multi-line string, even when the line closes that
    string itself (as in a one-line [k = '''v''']).  From that line up to
    the next line containing the closing delimiter no entry is recorded,
    that line's own included. *)
Theorem triple_quote_line_suspends_harvest : forall st l L,
  Comments.string_state st = Comments.SNone ->
  Comments.detect_start (Str.trim l) <> Comments.SNone ->
  Forall (fun x => Str.contains (Analysis.closing (Comments.detect_start (Str.trim l)))
                                (Str.trim x) = false) L ->
  Comments.comments (Comments.run st (l :: L)) = Comments.comments st
  /\ Comments.string_state (Comments.run st (l :: L)) = Comments.detect_start (Str.trim l).
Proof.
  intros st l L Hst Hd HL.
  change (Comments.run st (l :: L)) with (Comments.run (Comments.step st l) L).
  assert (Hstep : Comments.step st l = Comments.set_string_state st (Comments.detect_start (Str.trim l))).
  { unfold Comments.step.
    destruct (String.eqb (Str.trim l) EmptyString) eqn:E.
    - apply String.eqb_eq in E. rewrite E in Hd. exfalso. apply Hd. reflexivity.
    - rewrite Hst. destruct (Comments.detect_start (Str.trim l)); [contradiction|reflexivity|reflexivity]. }
  rewrite Hstep.
  destruct (StringStateFacts.run_in_string L
              (Comments.set_string_state st (Comments.detect_start (Str.trim l)))
              _ Hd eq_refl HL) as [H1 H2].
  split; [exact H1|exact H2].
Qed.

Lemma triple_quote_line_suspends_harvest_witness :
  Comments.comments
    (Comments.run Comments.init
       [("a = " ++ Comments.dq3 ++ "v" ++ Comments.dq3)%string; "# doc"; "b = 1"]) = [].
Proof.
  apply (proj1 (triple_quote_line_suspends_harvest Comments.init
                  ("a = " ++ Comments.dq3 ++ "v" ++ Comments.dq3)%string ["# doc"; "b = 1"]
                  eq_refl ltac:(vm_compute; discriminate)
                  ltac:(repeat constructor))).
Defined.

(** ** The field list built by [TomlFields::build] *)

Module TreeFacts.
Import FieldNav.

Lemma skeleton_map_ext (g : Field.TomlField -> Field.TomlField) l :
  (forall f, skeleton (g f) = skeleton f) ->
  map skeleton (map g l) = map skeleton l.
Proof.
  intros Hg. rewrite map_map. apply map_ext. exact Hg.
Qed.

Lemma skeleton_update_first p g l :
  (forall f, skeleton (g f) = skeleton f) ->
  map skeleton (Field.update_first p g l) = map skeleton l.
Proof.
  intros Hg. induction l as [|x l IH]; cbn [Field.update_first]; [reflexivity|].
  destruct (p x); cbn [map]; [rewrite Hg|rewrite IH]; reflexivity.
Qed.

Lemma skeleton_attach_aliases al l :
  map skeleton (Field.attach_aliases al l) = map skeleton l.
Proof.
  unfold Field.attach_aliases.
  generalize (match al with Some al => al | None => [] end) as xs. intros xs.
  revert l. induction xs as [|[a o] xs IH]; intros l; cbn [fold_left]; [reflexivity|].
  rewrite IH. apply skeleton_update_first. reflexivity.
Qed.

Lemma skeleton_build gm pats al cm v :
  map skeleton (Field.build gm pats al cm v)
  = map skeleton (Field.extract_matched_paths_from_value gm pats al [] v Utils.ROOT 0).
Proof.
  unfold Field.build, Field.attach_comments, Field.attach_relative_paths.
  rewrite skeleton_map_ext, skeleton_attach_aliases, skeleton_map_ext; [reflexivity| |];
  intros f; [destruct (Field.get_relative_path _ _)|destruct (Field.lookup_comment _ _)];
  reflexivity.
Qed.

Lemma parents_ok_skeleton l1 l2 :
  map skeleton l1 = map skeleton l2 -> parents_ok l1 -> parents_ok l2.
Proof.
  intros Hs H i f Hi.
  assert (Hm : forall k, option_map skeleton (nth_error l2 k) = option_map skeleton (nth_error l1 k))
    by (intros k; rewrite <- !nth_error_map, Hs; reflexivity).
  pose proof (Hm i) as Hmi. rewrite Hi in Hmi.
  destruct (nth_error l1 i) as [f1|] eqn:E1; [|discriminate].
  cbn [option_map] in Hmi. unfold skeleton in Hmi. injection Hmi as Hn Hv Hp Ht Hpar.
  specialize (H i f1 E1). rewrite Hpar. destruct (Field.parent f1) as [j|]; [|exact H].
  destruct H as [Hj [g1 [Hg1 Htab]]]. split; [exact Hj|].
  pose proof (Hm j) as Hmj. rewrite Hg1 in Hmj.
  destruct (nth_error l2 j) as [g2|]; [|discriminate].
  cbn [option_map] in Hmj. unfold skeleton in Hmj. injection Hmj as _ Hv2 _ _ _.
  exists g2. split; [reflexivity|]. unfold Field.is_table in *. rewrite Hv2. exact Htab.
Qed.

Lemma parents_ok_snoc fs f :
  parents_ok fs ->
  match Field.parent f with
  | None => length fs = 0
  | Some j => j < length fs /\ exists g, nth_error fs j = Some g /\ Field.is_table g = true
  end ->
  parents_ok (fs ++ [f]).
Proof.
  intros H Hf i g Hi.
  destruct (Nat.lt_ge_cases i (length fs)) as [Hlt|Hge].
  - rewrite nth_error_app1 in Hi by exact Hlt. specialize (H i g Hi).
    destruct (Field.parent g) as [j|]; [|exact H].
    destruct H as [Hj [g' [Hg' Ht]]]. split; [exact Hj|].
    exists g'. rewrite nth_error_app1 by lia. split; assumption.
  - rewrite nth_error_app2 in Hi by exact Hge.
    destruct (i - length fs) as [|n] eqn:E; [|destruct n; discriminate].
    injection Hi as <-. destruct (Field.parent f) as [j|]; [|lia].
    destruct Hf as [Hj [g' [Hg' Ht]]]. split; [lia|].
    exists g'. rewrite nth_error_app1 by exact Hj. split; assumption.
Qed.

Lemma pre_nth (fs0 ext : list Field.TomlField) idx g :
  nth_error fs0 idx = Some g -> nth_error (fs0 ++ ext) idx = Some g.
Proof.
  intros H. rewrite nth_error_app1; [exact H|]. apply nth_error_Some. rewrite H. discriminate.
Qed.

Ltac go_parents gm pats al fidx Hgo :=
  match goal with |- parents_ok (?go (app ?fsx [?Fx]) ?tx) =>
    assert (Hgo : forall t0 fs0,
      Forall (fun kv => forall fs p idx, parents_ok fs -> pre fs idx ->
        parents_ok (Field.extract_matched_paths_from_value gm pats al fs (snd kv) p idx)) t0 ->
      parents_ok fs0 -> nth_error fs0 fidx = Some Fx -> parents_ok (go fs0 t0));
    [ let t0 := fresh "t0" in let k := fresh "k" in let w := fresh "w" in
      let IH := fresh "IH" in let fs0 := fresh "fs0" in let Hall := fresh "Hall" in
      let Hok0 := fresh "Hok0" in let Hn0 := fresh "Hn0" in
      intros t0; induction t0 as [|[k w] t0 IH]; intros fs0 Hall Hok0 Hn0;
      [ exact Hok0
      | let Hw := fresh "Hw" in let Hrest := fresh "Hrest" in
        inversion Hall as [|? ? Hw Hrest]; subst; cbn [snd] in Hw; cbn beta iota;
        apply IH;
        [ exact Hrest
        | apply Hw; [exact Hok0 | right; exists Fx; split; [exact Hn0 | reflexivity]]
        | match goal with
          | |- nth_error (Field.extract_matched_paths_from_value _ _ _ ?a ?b ?c ?d) _ = _ =>
              let e := fresh "e" in let He := fresh "He" in
              destruct (BuildFacts.extract_appends gm pats al b a c d) as [e [He _]];
              rewrite He; apply pre_nth; exact Hn0
          end ] ]
    | ]
  end.

Lemma extract_parents gm pats al :
  forall v fs p idx, parents_ok fs -> pre fs idx ->
  parents_ok (Field.extract_matched_paths_from_value gm pats al fs v p idx).
Proof.
  induction v as [s|i|b|b|d|l _|t Ht] using BuildFacts.Value_nested_ind;
  intros fs p idx Hok Hpre; cbn [Field.extract_matched_paths_from_value].
  all: destruct (Nat.eqb idx 0 && match fs with [] => true | _ => false end) eqn:Eroot.
  all: match goal with
       | E : _ = true |- _ =>
           apply andb_prop in E; destruct E as [E0 E1]; destruct fs; [|discriminate];
           apply Nat.eqb_eq in E0; subst idx
       | E : _ = false |- _ =>
           assert (Hg : exists g, nth_error fs idx = Some g /\ Field.is_table g = true)
             by (destruct Hpre as [[-> ->]|Hx]; [discriminate E | exact Hx])
       end.
  all: cbn beta iota zeta; unfold Field.with_alias;
    repeat (match goal with |- context[if ?b then _ else _] => destruct b end; cbn beta iota zeta).
  all: try exact Hok.
  all: try (apply parents_ok_snoc; [exact Hok|]; cbn;
            first [reflexivity
                  | destruct Hg as [g [Hg1 Hg2]]; split;
                    [apply nth_error_Some; rewrite Hg1; discriminate | exists g; split; assumption]]).
  all: first [ go_parents gm pats al 0 Hgo | go_parents gm pats al (length fs) Hgo ].
  all: apply Hgo;
    [ exact Ht
    | apply parents_ok_snoc; [exact Hok|]; cbn;
      first [reflexivity
            | destruct Hg as [g [Hg1 Hg2]]; split;
              [apply nth_error_Some; rewrite Hg1; discriminate | exists g; split; assumption]]
    | first [reflexivity | rewrite nth_error_app2, Nat.sub_diag by lia; reflexivity] ].
Qed.

Lemma value_eqb_nan_free :
  forall b a, value_eqb a b = true -> has_nan b = false.
Proof.
  induction b as [s|i|y|y|d|l Hl|t Ht] using BuildFacts.Value_nested_ind;
  intros a H; try reflexivity.
  - destruct a as [| |x| | | |]; try discriminate. cbn in H |- *. unfold float_eqb in H.
    destruct (is_nan x || is_nan y) eqn:E; [discriminate|].
    apply orb_false_elim in E. exact (proj2 E).
  - destruct a as [| | | | |xs|]; try discriminate. revert xs H.
    induction Hl as [|y ys Hy Hys IH]; intros xs H; [reflexivity|].
    destruct xs as [|x xs]; [discriminate|].
    cbn [value_eqb] in H. apply andb_prop in H. destruct H as [H1 H2].
    cbn [has_nan]. rewrite (Hy x H1). cbn [orb]. exact (IH xs H2).
  - destruct a as [| | | | | |xs]; try discriminate. revert xs H.
    induction Ht as [|[k y] ys Hy Hys IH]; intros xs H; [reflexivity|].
    destruct xs as [|[k' x] xs]; [discriminate|].
    cbn [value_eqb] in H. apply andb_prop in H. destruct H as [H1 H2].
    apply andb_prop in H1. destruct H1 as [_ H1].
    cbn [has_nan]. cbn [snd] in Hy. rewrite (Hy x H1). cbn [orb]. exact (IH xs H2).
Qed.

Lemma index_of_nan fs f :
  has_nan (Field.value f) = true -> index_of fs f = None.
Proof.
  intros Hn. unfold index_of. induction fs as [|g fs IH]; [reflexivity|].
  cbn [position]. destruct (field_eqb g f) eqn:E.
  - exfalso. unfold field_eqb in E.
    repeat match goal with H : _ && _ = true |- _ => apply andb_prop in H; destruct H end.
    match goal with H : value_eqb _ _ = true |- _ =>
      rewrite (value_eqb_nan_free _ _ H) in Hn; discriminate Hn end.
  - rewrite IH. reflexivity.
Qed.

Lemma build_root gm pats al cm t :
  exists r rest, Field.build gm pats al cm (VTable t) = r :: rest
    /\ skeleton r = skeleton (Field.root (VTable t)).
Proof.
  pose proof (skeleton_build gm pats al cm (VTable t)) as Hs.
  destruct (BuildFacts.extract_root_head gm pats al t) as [ext He]. rewrite He in Hs.
  destruct (Field.build gm pats al cm (VTable t)) as [|r rest]; [discriminate|].
  pose proof (f_equal (@hd_error _) Hs) as H1. cbn [map hd_error] in H1.
  exists r, rest. split; [reflexivity|congruence].
Qed.

End TreeFacts.

(** The last three steps of [TomlFields::build] (relative paths, aliases,
    comments) never add, drop or reorder fields, and leave the name, value,
    path, document path and parent index of every field as extraction set
    them. *)
Theorem build_keeps_skeleton gm pats al cm v :
  map FieldNav.skeleton (Field.build gm pats al cm v)
  = map FieldNav.skeleton
      (Field.extract_matched_paths_from_value gm pats al [] v Utils.ROOT 0).
Proof.
  apply TreeFacts.skeleton_build.
Qed.

(** The parent indices of a built field list form a tree rooted at index 0:
    the field at index 0 is the only one without a parent, and every other
    field's parent index points to an earlier field whose value is a table. *)
Theorem build_parent_tree gm pats al cm v :
  FieldNav.parents_ok (Field.build gm pats al cm v).
Proof.
  apply (TreeFacts.parents_ok_skeleton
           (Field.extract_matched_paths_from_value gm pats al [] v Utils.ROOT 0)).
  - symmetry. apply TreeFacts.skeleton_build.
  - apply TreeFacts.extract_parents.
    + intros i f H. destruct i; discriminate.
    + left. split; reflexivity.
Qed.

(** A NaN float anywhere in the document makes code generation panic at
    its first step: the root field holds the NaN, so it is unequal to
    itself, [index_of] cannot find it and [get_relative_children_of] on
    index 0 panics, which is the first thing [generate_modules] reaches. *)
Theorem nan_document_panics gm pats al cm t dbg disp vi fuel :
  FieldNav.has_nan (VTable t) = true -> 0 < fuel ->
  FieldNav.get_relative_children_of (Field.build gm pats al cm (VTable t)) 0
    = RootModule.Panic "Expected a valid index of a field that exists"
  /\ FieldNav.generate_modules dbg disp vi fuel (Field.build gm pats al cm (VTable t))
    = Some (RootModule.Panic "Expected a valid index of a field that exists").
Proof.
  intros Hn Hf.
  destruct (TreeFacts.build_root gm pats al cm t) as [r [rest [Hb Hr]]].
  unfold FieldNav.skeleton in Hr. cbn in Hr. injection Hr as _ Hv Hp _ _.
  assert (Hc : FieldNav.get_relative_children_of (Field.build gm pats al cm (VTable t)) 0
               = RootModule.Panic "Expected a valid index of a field that exists").
  { rewrite Hb. unfold FieldNav.get_relative_children_of, FieldNav.get_field. cbn [nth_error].
    cbn [FieldNav.relative_children]. rewrite TreeFacts.index_of_nan by (rewrite Hv; exact Hn). reflexivity. }
  split; [exact Hc|].
  destruct fuel as [|fuel]; [lia|]. unfold FieldNav.generate_modules. cbn [FieldNav.generate_module].
  rewrite Hc. rewrite Hb. unfold FieldNav.get_field. cbn [nth_error]. rewrite Hp. reflexivity.
Qed.

Lemma nan_document_panics_witness :
  FieldNav.has_nan (VTable [("x", VFloat 9221120237041090560%Z)]) = true /\ 0 < 1 /\
  FieldNav.get_relative_children_of
    (Field.build Glob.is_match (RootModule.build_patterns Docs.select_none) (Some []) (Some [])
       (VTable [("x", VFloat 9221120237041090560%Z)])) 0
    = RootModule.Panic "Expected a valid index of a field that exists"
  /\ FieldNav.generate_modules (fun _ => EmptyString) (fun _ => EmptyString) (fun _ => true) 1
    (Field.build Glob.is_match (RootModule.build_patterns Docs.select_none) (Some []) (Some [])
       (VTable [("x", VFloat 9221120237041090560%Z)]))
    = Some (RootModule.Panic "Expected a valid index of a field that exists").
Proof.
  split; [reflexivity|]. split; [lia|].
  apply (nan_document_panics Glob.is_match (RootModule.build_patterns Docs.select_none)
           (Some []) (Some []) [("x", VFloat 9221120237041090560%Z)]
           (fun _ => EmptyString) (fun _ => EmptyString) (fun _ => true) 1);
    [reflexivity | lia].
Defined.

(** ** The section generator of [lib.rs] *)

Module LibFacts.
Import LibGen.

Section Inv.
Variable Q : LibItem -> Prop.

Lemma get_in {V} k (m : list (string * V)) c : Map.get k m = Some c -> In (k, c) m.
Proof.
  induction m as [|[k' v] m IH]; cbn [Map.get]; [discriminate|].
  destruct (String.eqb k' k) eqn:E.
  - intros H. injection H as <-. apply String.eqb_eq in E. subst. left. reflexivity.
  - intros H. right. auto.
Qed.

Lemma get_of_in {V} k (m : list (string * V)) :
  In k (map fst m) -> exists c, Map.get k m = Some c.
Proof.
  induction m as [|[k' v] m IH]; cbn; [tauto|].
  intros [H|H]; destruct (String.eqb k' k) eqn:E; eauto.
  subst. rewrite String.eqb_refl in E. discriminate.
Qed.

Lemma get_remove {V} p p' (m : list (string * V)) :
  p <> p' -> Map.get p (remove p' m) = Map.get p m.
Proof.
  intros Hne. induction m as [|[k v] m IH]; [reflexivity|].
  cbn [remove filter fst]. unfold remove in IH.
  destruct (String.eqb k p') eqn:E1; cbn [negb Map.get].
  - apply String.eqb_eq in E1. subst. destruct (String.eqb p' p) eqn:E2.
    + apply String.eqb_eq in E2. congruence.
    + exact IH.
  - rewrite IH. reflexivity.
Qed.

Lemma get_entry_extend {V} p k (items : list V) m c :
  Map.get p m = Some c ->
  exists c', Map.get p (entry_extend k items m) = Some c' /\ (forall x, In x c -> In x c').
Proof.
  intros H. unfold entry_extend. destruct (Map.get k m) as [ck|] eqn:Ek.
  - clear Ek. induction m as [|[k' v] m IH]; cbn [Map.get] in H |- *; [discriminate|].
    cbn [map]. destruct (String.eqb k' k) eqn:E1; cbn [Map.get];
    destruct (String.eqb k' p) eqn:E2.
    + injection H as <-. exists (v ++ items)%list. split; [reflexivity|]. intros x Hx.
      apply in_or_app. left. exact Hx.
    + apply IH. exact H.
    + injection H as <-. exists v. split; [reflexivity|]. tauto.
    + apply IH. exact H.
  - clear Ek. exists c. split; [|tauto]. induction m as [|[k' v] m IH]; cbn [Map.get] in H |- *;
    [discriminate|]. cbn [app Map.get]. destruct (String.eqb k' p); [exact H|]. apply IH. exact H.
Qed.

Lemma map_ok_remove k m : map_ok Q m -> map_ok Q (remove k m).
Proof.
  intros H k' c Hin. unfold remove in Hin. apply filter_In in Hin. apply (H k'), Hin.
Qed.

Lemma map_ok_entry_extend k items m :
  map_ok Q m -> Forall Q items -> map_ok Q (entry_extend k items m).
Proof.
  intros H Hi k' c Hin. unfold entry_extend in Hin. destruct (Map.get k m).
  - apply in_map_iff in Hin. destruct Hin as [[k0 v] [Heq Hin]].
    destruct (String.eqb k0 k); injection Heq as <- <-.
    + apply Forall_app. split; [apply (H k0); exact Hin | exact Hi].
    + apply (H k0). exact Hin.
  - apply in_app_or in Hin. destruct Hin as [Hin|[Heq|[]]].
    + apply (H k'). exact Hin.
    + injection Heq as <- <-. exact Hi.
Qed.

End Inv.

Section ModuleLoop.
Variable Q : LibItem -> Prop.
Hypothesis HQ : forall n c, Forall Q c -> has_const c -> Q (LMod n c).
Variable vi : string -> bool.
Variable paths : list string.

Lemma module_step_inv depth mm pr p mm' pr' :
  map_ok Q mm -> pending paths mm pr -> In p paths ->
  module_step vi depth (mm, pr) p = RootModule.Ok (mm', pr') ->
  map_ok Q mm' /\ pending paths mm' pr'.
Proof.
  intros Hok Hpend Hp Hs. unfold module_step in Hs.
  destruct (negb (Nat.eqb (length (Str.split "." p)) depth)
            || existsb (String.eqb p) pr) eqn:E1.
  { injection Hs as <- <-. split; assumption. }
  destruct (String.eqb p EmptyString) eqn:E2.
  { injection Hs as <- <-. split; assumption. }
  apply orb_false_elim in E1. destruct E1 as [_ E1].
  assert (Hnp : ~ In p pr).
  { intros Hin. assert (existsb (String.eqb p) pr = true) as Hc
      by (apply existsb_exists; exists p; split; [exact Hin|apply String.eqb_refl]).
    congruence. }
  destruct (Hpend p Hp Hnp) as [c [Hc Hcc]]. rewrite Hc in Hs.
  assert (Hpend' : pending paths (remove p mm) (pr ++ [p])).
  { intros p' Hp' Hn'. assert (p' <> p) as Hne by (intros ->; apply Hn'; apply in_or_app; right; left; reflexivity).
    rewrite get_remove by exact Hne. apply Hpend; [exact Hp'|].
    intros Hin. apply Hn'. apply in_or_app. left. exact Hin. }
  destruct (String.eqb (last (Str.split "." p) EmptyString) EmptyString).
  { injection Hs as <- <-. split; [apply map_ok_remove; exact Hok | exact Hpend']. }
  destruct (FieldNav.format_ident vi (Utils.to_valid_ident (last (Str.split "." p) EmptyString)))
    as [name|m]; [|discriminate].
  injection Hs as <- <-. split.
  - apply map_ok_entry_extend; [apply map_ok_remove; exact Hok|].
    constructor; [|constructor]. apply HQ; [apply (Hok p); apply get_in; exact Hc | exact Hcc].
  - intros p' Hp' Hn'. destruct (Hpend' p' Hp' Hn') as [c1 [Hc1 Hh1]].
    match goal with |- exists c', Map.get p' (entry_extend ?k _ _) = _ /\ _ =>
      destruct (get_entry_extend p' k [LMod name c] _ c1 Hc1) as [c2 [Hc2 Hsub]] end.
    exists c2. split; [exact Hc2|]. destruct Hh1 as [d [n [ty [v Hin]]]].
    exists d, n, ty, v. apply Hsub. exact Hin.
Qed.

Lemma module_loop_inv depth ps : forall mm pr mm' pr',
  map_ok Q mm -> pending paths mm pr -> (forall p, In p ps -> In p paths) ->
  module_loop vi depth ps (mm, pr) = RootModule.Ok (mm', pr') ->
  map_ok Q mm' /\ pending paths mm' pr'.
Proof.
  induction ps as [|p ps IH]; intros mm pr mm' pr' Hok Hpend Hsub Hl; cbn [module_loop] in Hl.
  - injection Hl as <- <-. split; assumption.
  - destruct (module_step vi depth (mm, pr) p) as [[mm1 pr1]|m] eqn:Hs; [|discriminate].
    destruct (module_step_inv depth mm pr p mm1 pr1 Hok Hpend (Hsub p (or_introl eq_refl)) Hs)
      as [Hok1 Hpend1].
    apply (IH mm1 pr1); [exact Hok1 | exact Hpend1 | intros x Hx; apply Hsub; right; exact Hx | exact Hl].
Qed.

Lemma depth_loop_inv n : forall mm pr mm' pr',
  map_ok Q mm -> pending paths mm pr ->
  depth_loop vi n paths (mm, pr) = RootModule.Ok (mm', pr') ->
  map_ok Q mm' /\ pending paths mm' pr'.
Proof.
  induction n as [|n IH]; intros mm pr mm' pr' Hok Hpend Hl; cbn [depth_loop] in Hl.
  - injection Hl as <- <-. split; assumption.
  - destruct (module_loop vi (S n) paths (mm, pr)) as [[mm1 pr1]|m] eqn:Hs; [|discriminate].
    destruct (module_loop_inv (S n) paths mm pr mm1 pr1 Hok Hpend (fun p H => H) Hs) as [Hok1 Hp1].
    exact (IH mm1 pr1 mm' pr' Hok1 Hp1 Hl).
Qed.

End ModuleLoop.

Section ConstLoop.
Variables (gm : string -> string -> bool) (vi : string -> bool)
  (dbg : list Value -> string) (disp : Value -> string)
  (toml : Value) (section : ConfigSection) (comments : Map.t string).

Lemma tree_ok_entry_extend k it tree :
  tree_ok gm toml section comments tree -> is_const it = true -> const_source gm toml section comments it ->
  tree_ok gm toml section comments (entry_extend k [it] tree).
Proof.
  intros Ht Hc Hs k' c Hin. unfold entry_extend in Hin. destruct (Map.get k tree).
  - apply in_map_iff in Hin. destruct Hin as [[k0 v] [Heq Hin]].
    destruct (Ht k0 v Hin) as [Hne Hall].
    destruct (String.eqb k0 k); injection Heq as <- <-.
    + split; [destruct v; [contradiction|discriminate]|].
      apply Forall_app. split; [exact Hall|constructor; [split; assumption|constructor]].
    + split; assumption.
  - apply in_app_or in Hin. destruct Hin as [Hin|[Heq|[]]].
    + apply (Ht k'). exact Hin.
    + injection Heq as <- <-. split; [discriminate|constructor; [split; assumption|constructor]].
Qed.

Lemma const_step_inv pv pr tree pr' tree' :
  In pv (extract_all_paths toml EmptyString []) -> tree_ok gm toml section comments tree ->
  const_step gm vi dbg disp section comments (pr, tree) pv = RootModule.Ok (pr', tree') ->
  tree_ok gm toml section comments tree'.
Proof.
  intros Hin Ht Hs. destruct pv as [path value]. unfold const_step in Hs.
  destruct value as [s|i|b|b|d|a|t];
    [ | | | | | | injection Hs as _ <-; exact Ht].
  all: destruct (negb (globset_is_match gm (include_globs section) path)) eqn:Ei;
    [injection Hs as _ <-; exact Ht|].
  all: destruct (globset_is_match gm (exclude_globs section) path) eqn:Ee;
    [injection Hs as _ <-; exact Ht|].
  all: match type of Hs with context[FieldNav.format_ident ?v ?x] =>
         destruct (FieldNav.format_ident v x) as [cn|m]; [|discriminate] end.
  all: match type of Hs with context[if existsb ?f ?l then _ else _] =>
         destruct (existsb f l); [injection Hs as _ <-; exact Ht|] end.
  all: match type of Hs with context[convert_value_to_tokens ?a ?b ?c] =>
         destruct (convert_value_to_tokens a b c) as [ty val] end.
  all: injection Hs as _ <-; apply tree_ok_entry_extend; [exact Ht|reflexivity|].
  all: exists path; eexists; split; [exact Hin|]; split; [intros t0; discriminate|].
  all: split; [apply negb_false_iff; exact Ei|]; split; [exact Ee|reflexivity].
Qed.

Lemma const_loop_inv l : forall pr tree pr' tree',
  (forall pv, In pv l -> In pv (extract_all_paths toml EmptyString [])) -> tree_ok gm toml section comments tree ->
  const_loop gm vi dbg disp section comments (pr, tree) l = RootModule.Ok (pr', tree') ->
  tree_ok gm toml section comments tree'.
Proof.
  induction l as [|pv l IH]; intros pr tree pr' tree' Hsub Ht Hl; cbn [const_loop] in Hl.
  - injection Hl as _ <-. exact Ht.
  - destruct (const_step gm vi dbg disp section comments (pr, tree) pv) as [[pr1 t1]|m] eqn:Hs;
      [|discriminate].
    apply (IH pr1 t1 pr' tree'); [intros x Hx; apply Hsub; right; exact Hx| |exact Hl].
    apply (const_step_inv pv pr tree pr1 t1); [apply Hsub; left; reflexivity|exact Ht|exact Hs].
Qed.

End ConstLoop.

Lemma item_ok_mod n c :
  Forall (fun it => item_ok it = true) c -> has_const c -> item_ok (LMod n c) = true.
Proof.
  intros Hall [d [m [ty [v Hin]]]]. cbn [item_ok]. apply andb_true_intro. split.
  - apply existsb_exists. exists (LConst d m ty v). split; [exact Hin|reflexivity].
  - clear Hin. induction Hall as [|x c Hx Hc IH]; [reflexivity|]. rewrite Hx. exact IH.
Qed.

Lemma consts_rec_mod S n c :
  Forall (fun it => Forall S (consts_rec it)) c -> Forall S (consts_rec (LMod n c)).
Proof.
  intros Hall. cbn [consts_rec]. induction Hall as [|x c Hx Hc IH]; [constructor|].
  apply Forall_app. split; assumption.
Qed.

Lemma output_ok (Q : LibItem -> Prop) mm ks :
  map_ok Q mm ->
  Forall Q (flat_map (fun k => match Map.get k mm with Some c => c | None => [] end) ks).
Proof.
  intros Hok. apply Forall_forall. intros x Hx. apply in_flat_map in Hx.
  destruct Hx as [k [_ Hx]]. destruct (Map.get k mm) as [c|] eqn:Hg; [|destruct Hx].
  apply get_in in Hg. exact (proj1 (Forall_forall _ _) (Hok k c Hg) x Hx).
Qed.

Lemma pending_init (order1 : list string -> list string) gm toml section comments
    (tree : list (string * list LibItem)) :
  (forall l x, In x (order1 l) <-> In x l) ->
  tree_ok gm toml section comments tree ->
  pending (order1 (map fst tree)) tree [].
Proof.
  intros Ho Ht p Hp _. apply (proj1 (Ho _ _)) in Hp. destruct (get_of_in p tree Hp) as [c Hc].
  exists c. split; [exact Hc|]. apply get_in in Hc. destruct (Ht p c Hc) as [Hne Hall].
  destruct c as [|it c]; [contradiction|]. inversion Hall as [|? ? [Hi _] _]; subst.
  destruct it as [d n ty v|]; [|discriminate]. exists d, n, ty, v. left. reflexivity.
Qed.

Lemma matches_star : forall s, Glob.matches ["*"%char] s = true.
Proof.
  induction s as [|d s IH]; [reflexivity|]. simpl in IH |- *. exact IH.
Qed.

Lemma matches_prefix : forall (g s : list ascii),
  ~ In "*"%char g ->
  Glob.matches (g ++ ["*"%char]) s = String.prefix (string_of_list_ascii g) (string_of_list_ascii s).
Proof.
  induction g as [|c g IH]; intros s Hg.
  - cbn [app string_of_list_ascii]. rewrite matches_star. destruct (string_of_list_ascii s); reflexivity.
  - cbn [app Glob.matches]. destruct (Ascii.eqb c "*") eqn:Ec.
    { apply Ascii.eqb_eq in Ec. subst. exfalso. apply Hg. left. reflexivity. }
    destruct s as [|d s]; [reflexivity|]. cbn [string_of_list_ascii String.prefix].
    destruct (ascii_dec c d) as [<-|Hne].
    + rewrite Ascii.eqb_refl. cbn [andb]. apply IH. intros H. apply Hg. right. exact H.
    + rewrite (proj2 (Ascii.eqb_neq c d) Hne). reflexivity.
Qed.

Lemma filter_all_eq (h : string) l :
  Forall (fun p => p = h) l -> filter (fun p => negb (String.eqb p h)) l = [].
Proof.
  induction 1 as [|x l Hx _ IH]; [reflexivity|]. cbn. subst x. rewrite String.eqb_refl. exact IH.
Qed.

End LibFacts.

(** Every module produced by [generate_section_module] holds at least one
    constant, and so do the modules nested in it at any depth: the modules
    come from module paths that received constants, and a module that would
    stay empty is not emitted. *)
Theorem lib_modules_hold_constants gm vi dbg disp order1 order2 toml section comments out pc :
  (forall l x, In x (order1 l) <-> In x l) ->
  LibGen.generate_section_module gm vi dbg disp order1 order2 toml section comments
    = RootModule.Ok (out, pc) ->
  Forall (fun it => LibGen.item_ok it = true) out.
Proof.
  intros Ho H. unfold LibGen.generate_section_module in H.
  destruct (LibGen.const_loop gm vi dbg disp section comments ([], [])
              (LibGen.extract_all_paths toml EmptyString []))
    as [[pc0 mt]|m] eqn:Hc; [|discriminate].
  destruct (LibGen.depth_loop vi 20 (order1 (map fst mt)) (mt, [])) as [[mm pr]|m] eqn:Hd;
    [|discriminate].
  injection H as <- _.
  assert (Ht : LibGen.tree_ok gm toml section comments mt)
    by (apply (LibFacts.const_loop_inv gm vi dbg disp toml section comments
                 (LibGen.extract_all_paths toml EmptyString []) [] [] pc0 mt);
        [intros pv Hpv; exact Hpv | intros k c []| exact Hc]).
  apply LibFacts.output_ok.
  apply (LibFacts.depth_loop_inv (fun it => LibGen.item_ok it = true) LibFacts.item_ok_mod vi
           (order1 (map fst mt)) 20 mt [] mm pr).
  - intros k c Hin. destruct (Ht k c Hin) as [_ Hall]. eapply Forall_impl; [|exact Hall].
    intros it [Hi _]. destruct it; [reflexivity|discriminate].
  - apply (LibFacts.pending_init order1 gm toml section comments mt Ho Ht).
  - exact Hd.
Qed.

Lemma lib_modules_hold_constants_witness :
  (forall (l : list string) x, In x (id l) <-> In x l) /\
  LibGen.generate_section_module Glob.is_match (fun _ => true) LibSamples.no_debug
    LibSamples.no_display id id LibSamples.doc LibSamples.package_section []
  = RootModule.Ok
      ([LibGen.LConst "Source: package.name" "NAME" TyStaticStr (LStr "x");
        LibGen.LMod "a" [LibGen.LConst "Source: package.metadata.a.b" "B" TyI64 (LInt 1)]],
       ["NAME"; "metadata.a::B"]) /\
  Forall (fun it => LibGen.item_ok it = true)
      [LibGen.LConst "Source: package.name" "NAME" TyStaticStr (LStr "x");
       LibGen.LMod "a" [LibGen.LConst "Source: package.metadata.a.b" "B" TyI64 (LInt 1)]].
Proof.
  split; [intros l x; apply iff_refl|]. split; [vm_compute; reflexivity|].
  apply (lib_modules_hold_constants Glob.is_match (fun _ => true) LibSamples.no_debug
           LibSamples.no_display id id LibSamples.doc LibSamples.package_section []
           _ ["NAME"; "metadata.a::B"]);
    [intros l x; apply iff_refl | vm_compute; reflexivity].
Defined.

(** Every constant emitted by [generate_section_module], at any depth of the
    module tree, comes from a non-table leaf of the document: its path is
    among [extract_all_paths] of the document, it matches an include glob and
    no exclude glob, and its doc comment starts with ["Source: "] followed by
    that path, with the harvested comment of the path after a blank line when
    there is one. *)
Theorem lib_constants_sourced gm vi dbg disp order1 order2 toml section comments out pc :
  (forall l x, In x (order1 l) <-> In x l) ->
  LibGen.generate_section_module gm vi dbg disp order1 order2 toml section comments
    = RootModule.Ok (out, pc) ->
  forall it c, In it out -> In c (LibGen.consts_rec it) ->
    LibGen.const_source gm toml section comments c.
Proof.
  intros Ho H. unfold LibGen.generate_section_module in H.
  destruct (LibGen.const_loop gm vi dbg disp section comments ([], [])
              (LibGen.extract_all_paths toml EmptyString []))
    as [[pc0 mt]|m] eqn:Hc; [|discriminate].
  destruct (LibGen.depth_loop vi 20 (order1 (map fst mt)) (mt, [])) as [[mm pr]|m] eqn:Hd;
    [|discriminate].
  injection H as <- _.
  assert (Ht : LibGen.tree_ok gm toml section comments mt)
    by (apply (LibFacts.const_loop_inv gm vi dbg disp toml section comments
                 (LibGen.extract_all_paths toml EmptyString []) [] [] pc0 mt);
        [intros pv Hpv; exact Hpv | intros k c []| exact Hc]).
  set (S := LibGen.const_source gm toml section comments).
  assert (Hout : Forall (fun it => Forall S (LibGen.consts_rec it))
                   (flat_map (fun k => match Map.get k mm with Some c => c | None => [] end)
                      (order2 (map fst mm)))).
  { apply LibFacts.output_ok.
    apply (LibFacts.depth_loop_inv (fun it => Forall S (LibGen.consts_rec it))
             (fun n c Hc _ => LibFacts.consts_rec_mod S n c Hc) vi (order1 (map fst mt)) 20 mt [] mm pr).
    - intros k c Hin. destruct (Ht k c Hin) as [_ Hall]. eapply Forall_impl; [|exact Hall].
      intros it [Hi Hs]. destruct it; [|discriminate]. constructor; [exact Hs|constructor].
    - apply (LibFacts.pending_init order1 gm toml section comments mt Ho Ht).
    - exact Hd. }
  intros it c Hit Hcin.
  exact (proj1 (Forall_forall _ _) (proj1 (Forall_forall _ _) Hout it Hit) c Hcin).
Qed.

Lemma lib_constants_sourced_witness :
  (forall (l : list string) x, In x (id l) <-> In x l) /\
  LibGen.generate_section_module Glob.is_match (fun _ => true) LibSamples.no_debug
    LibSamples.no_display id id LibSamples.doc LibSamples.package_section []
  = RootModule.Ok
      ([LibGen.LConst "Source: package.name" "NAME" TyStaticStr (LStr "x");
        LibGen.LMod "a" [LibGen.LConst "Source: package.metadata.a.b" "B" TyI64 (LInt 1)]],
       ["NAME"; "metadata.a::B"]) /\
  LibGen.const_source Glob.is_match LibSamples.doc LibSamples.package_section []
    (LibGen.LConst "Source: package.metadata.a.b" "B" TyI64 (LInt 1)).
Proof.
  split; [intros l x; apply iff_refl|]. split; [vm_compute; reflexivity|].
  refine (lib_constants_sourced Glob.is_match (fun _ => true) LibSamples.no_debug
           LibSamples.no_display id id LibSamples.doc LibSamples.package_section []
           [LibGen.LConst "Source: package.name" "NAME" TyStaticStr (LStr "x");
            LibGen.LMod "a" [LibGen.LConst "Source: package.metadata.a.b" "B" TyI64 (LInt 1)]]
           ["NAME"; "metadata.a::B"] (fun l x => iff_refl _) ltac:(vm_compute; reflexivity)
           (LibGen.LMod "a" [LibGen.LConst "Source: package.metadata.a.b" "B" TyI64 (LInt 1)])
           _ (or_intror (or_introl eq_refl)) (or_introl eq_refl)).
Defined.

(** An include pattern that is not a glob and holds none of the glob
    metacharacters [* ? [ ] { } \] matches exactly the paths it is a prefix
    of, since [generate_section_module] turns it into the glob [path*]. *)
Theorem lib_plain_include_is_prefix sec path :
  Forall (fun pat => LibGen.is_glob pat = false /\
            Forall (fun c => ~ In c (list_ascii_of_string "*?[]{}\"))
              (list_ascii_of_string (LibGen.pp_path pat)))
    (LibGen.includes sec) ->
  LibGen.globset_is_match Glob.is_match (LibGen.include_globs sec) path
  = existsb (fun pat => String.prefix (LibGen.pp_path pat) path) (LibGen.includes sec).
Proof.
  intros Hall. unfold LibGen.globset_is_match, LibGen.include_globs.
  induction Hall as [|pat pats [Hg Hf] _ IH]; [reflexivity|].
  cbn [map existsb]. rewrite IH, Hg. f_equal.
  unfold Glob.is_match. rewrite IdentFacts.list_ascii_app. cbn [list_ascii_of_string].
  rewrite LibFacts.matches_prefix
    by (intros Hs; apply (proj1 (Forall_forall _ _) Hf _ Hs); left; reflexivity).
  rewrite !string_of_list_ascii_of_string. reflexivity.
Qed.

Lemma lib_plain_include_is_prefix_witness :
  Forall (fun pat => LibGen.is_glob pat = false /\
            Forall (fun c => ~ In c (list_ascii_of_string "*?[]{}\"))
              (list_ascii_of_string (LibGen.pp_path pat)))
    [LibGen.mkPathPattern "package.name" false] /\
  LibGen.globset_is_match Glob.is_match
    (LibGen.include_globs (LibGen.mkSection "package" [LibGen.mkPathPattern "package.name" false] [] []))
    "package.name_extra"
  = existsb (fun pat => String.prefix (LibGen.pp_path pat) "package.name_extra")
      [LibGen.mkPathPattern "package.name" false].
Proof.
  assert (Hp : Forall (fun pat => LibGen.is_glob pat = false /\
            Forall (fun c => ~ In c (list_ascii_of_string "*?[]{}\"))
              (list_ascii_of_string (LibGen.pp_path pat)))
    [LibGen.mkPathPattern "package.name" false]).
  { repeat constructor; cbn; intuition discriminate. }
  split; [exact Hp|].
  apply (lib_plain_include_is_prefix
           (LibGen.mkSection "package" [LibGen.mkPathPattern "package.name" false] [] [])
           "package.name_extra").
  exact Hp.
Defined.

(** In [extract_comments] of [lib.rs], a line that (once trimmed) is neither
    a table header (starting with [[] and ending with []]), nor a comment,
    nor holds a [=], leaves the whole state
    unchanged: the comment map, the pending comments and the current table
    path. *)
Theorem lib_plain_lines_keep_state : forall L st,
  Forall (fun l => Str.find "=" (Str.trim l) = None
                   /\ Str.starts_with "#" (Str.trim l) = false
                   /\ Str.starts_with "[" (Str.trim l) && Str.ends_with "]" (Str.trim l) = false) L ->
  LibComments.run st L = st.
Proof.
  intros L st HL. unfold LibComments.run.
  induction HL as [|l L [He [Hh Hb]] _ IH]; [reflexivity|].
  cbn [fold_left]. unfold LibComments.step at 2. rewrite Hb, Hh.
  rewrite He. exact IH.
Qed.

Lemma lib_plain_lines_keep_state_witness :
  Forall (fun l => Str.find "=" (Str.trim l) = None
                   /\ Str.starts_with "#" (Str.trim l) = false
                   /\ Str.starts_with "[" (Str.trim l) && Str.ends_with "]" (Str.trim l) = false)
    [""; "  "; "1, 2]"; "[3,"] /\
  LibComments.run (LibComments.mkLState [] ["c"] ["a"]) [""; "  "; "1, 2]"; "[3,"]
  = LibComments.mkLState [] ["c"] ["a"].
Proof.
  split; [repeat constructor|].
  apply lib_plain_lines_keep_state. repeat constructor.
Defined.

(** In [extract_comments] of [lib.rs], comment lines followed by a table
    header record nothing: the header discards the pending comments and the
    comment map is left as it was. *)
Theorem lib_header_drops_pending_comments : forall cls h st,
  Forall (fun l => Str.starts_with "#" (Str.trim l) = true) cls ->
  Str.starts_with "[" (Str.trim h) && Str.ends_with "]" (Str.trim h) = true ->
  LibComments.lcomments (LibComments.run st (cls ++ [h])) = LibComments.lcomments st
  /\ LibComments.lcurrent_comments (LibComments.run st (cls ++ [h])) = [].
Proof.
  intros cls h st Hc Hh. unfold LibComments.run. rewrite fold_left_app.
  assert (Hk : LibComments.lcomments (fold_left LibComments.step cls st) = LibComments.lcomments st).
  { revert st. induction Hc as [|l cls Hl _ IH]; intros st; [reflexivity|].
    cbn [fold_left]. rewrite IH. unfold LibComments.step.
    destruct (Str.trim l) as [|c t] eqn:Et; [discriminate|].
    cbn [Str.starts_with] in Hl |- *. apply Ascii.eqb_eq in Hl. subst c.
    reflexivity. }
  cbn [fold_left]. set (s0 := fold_left LibComments.step cls st) in *.
  unfold LibComments.step. rewrite Hh. split; [exact Hk|reflexivity].
Qed.

Lemma lib_header_drops_pending_comments_witness :
  Forall (fun l => Str.starts_with "#" (Str.trim l) = true) ["# c"] /\
  Str.starts_with "[" (Str.trim "[a]") && Str.ends_with "]" (Str.trim "[a]") = true /\
  LibComments.lcomments (LibComments.run (LibComments.mkLState [] [] []) (["# c"] ++ ["[a]"]))
    = LibComments.lcomments (LibComments.mkLState [] [] [])
  /\ LibComments.lcurrent_comments
       (LibComments.run (LibComments.mkLState [] [] []) (["# c"] ++ ["[a]"])) = [].
Proof.
  split; [repeat constructor|]. split; [reflexivity|].
  apply lib_header_drops_pending_comments; [repeat constructor | reflexivity].
Defined.

(** In [generate_section_module], the first segment of a leaf's path never
    names a module, and neither do the segments equal to it: a leaf whose
    path segments before the last all equal the first one (in particular
    every path of two segments, a direct key of the top table) gets the
    empty module path, so its constant goes to the top level of the
    generated section. *)
Theorem lib_shallow_leaf_module_path section_name path :
  Forall (fun p => p = hd EmptyString (Str.split "." path)) (removelast (Str.split "." path)) ->
  LibGen.module_path_of section_name path = EmptyString.
Proof.
  intros H. unfold LibGen.module_path_of.
  set (sp := Str.split "." path) in *.
  assert (Hp : length (filter (fun p => negb (String.eqb p (hd EmptyString sp))) sp) <= 1).
  { destruct sp as [|x l] eqn:Es; [cbn; lia|].
    change (hd EmptyString (x :: l)) with x in *.
    rewrite (app_removelast_last x (l := x :: l) ltac:(discriminate)), filter_app, length_app.
    rewrite LibFacts.filter_all_eq by exact H. cbn. destruct (negb _); cbn; lia. }
  destruct (filter _ sp) as [|a [|b r]]; cbn in Hp |- *; [reflexivity|reflexivity|lia].
Qed.

Lemma lib_shallow_leaf_module_path_witness :
  Forall (fun p => p = hd EmptyString (Str.split "." "tool.tool.level"))
    (removelast (Str.split "." "tool.tool.level")) /\
  LibGen.module_path_of "package" "tool.tool.level" = EmptyString.
Proof.
  split; [vm_compute; repeat constructor|].
  apply lib_shallow_leaf_module_path. vm_compute. repeat constructor.
Defined.
